(** * goloquent: the statement builder, shallowly embedded

    The development follows [builder.go], [db.go], [statement.go] and the
    mysql dialect.  SQL text is a [string] (a sequence of bytes, as in Go),
    a Go [interface{}] is a [Value], a function that returns [(T, error)]
    or that can panic returns a [result]. *)

From Stdlib Require Import String Ascii List ZArith Lia Bool DecimalString.
Import ListNotations.
Set Warnings "-register-all".
Local Open Scope list_scope.
Local Open Scope string_scope.

(** ** Results of fallible Go code *)

Inductive result (A : Type) : Type :=
| Ok (a : A)
| Err (e : string)
| Panic (msg : string).

Arguments Ok {A} a.
Arguments Err {A} e.
Arguments Panic {A} msg.

Definition bind {A B : Type} (r : result A) (k : A -> result B) : result B :=
  match r with
  | Ok a => k a
  | Err e => Err e
  | Panic m => Panic m
  end.

Notation "x <- r ;; k" := (bind r (fun x => k))
  (at level 61, r at next level, right associativity).

Notation "' pat <- r ;; k" := (bind r (fun x => match x with pat => k end))
  (at level 61, pat pattern, r at next level, right associativity).

Definition isOk {A : Type} (r : result A) : bool :=
  match r with Ok _ => true | _ => false end.

(** ** The pieces of Go's [strings], [bytes] and [fmt] the builder uses *)

Module GoStr.

(** [strings.Join] *)
Fixpoint Join (xs : list string) (sep : string) : string :=
  match xs with
  | [] => ""
  | [x] => x
  | x :: r => x ++ sep ++ Join r sep
  end.

(** [strings.Repeat] *)
Fixpoint Repeat (s : string) (n : nat) : string :=
  match n with
  | O => ""
  | S k => s ++ Repeat s k
  end.

Fixpoint inCutset (c : ascii) (cutset : string) : bool :=
  match cutset with
  | EmptyString => false
  | String x r => Ascii.eqb c x || inCutset c r
  end.

(** [strings.TrimRight]: drops every trailing byte that is in the cutset. *)
Fixpoint TrimRight (s cutset : string) : string :=
  match s with
  | EmptyString => EmptyString
  | String c r =>
      match TrimRight r cutset with
      | EmptyString => if inCutset c cutset then EmptyString else String c EmptyString
      | t => String c t
      end
  end.

(** [Truncate] of bytes.Buffer: keeps the first [n] bytes, and panics when
    [n] is negative or larger than the buffer. *)
Definition Truncate (buf : string) (n : Z) : result string :=
  if ((n <? 0) || (Z.of_nat (String.length buf) <? n))%Z
  then Panic "bytes.Buffer: truncation out of range"
  else Ok (substring 0 (Z.to_nat n) buf).

(** [buf.Len()] *)
Definition Len (buf : string) : Z := Z.of_nat (String.length buf).

(** [fmt.Sprintf("%d", z)] *)
Definition itoa (z : Z) : string := NilZero.string_of_int (Z.to_int z).

(** The double quote, and [fmt.Sprintf("%q", s)] on a plain word. *)
Definition dq : string := String (ascii_of_nat 34) EmptyString.
Definition quoted (s : string) : string := dq ++ s ++ dq.

End GoStr.

(** ** Values, keys *)

(** [datastore.Key] of cloud.google.com/go/datastore. *)
Inductive Key : Type :=
| mkKey (Kind : string) (ID : Z) (Name : string) (Parent : option Key)
        (Namespace : string).

(** A pointer to a [datastore.Key]; [None] is the nil pointer. *)
Definition KeyPtr := option Key.

(** [Incomplete] of datastore.Key: no name and no numeric id. *)
Definition Incomplete (k : Key) : bool :=
  match k with
  | mkKey _ id name _ _ => (name =? "") && (id =? 0)%Z
  end.

(** A Go [interface{}] as the builder inspects it. *)
Inductive Value : Type :=
| VNil
| VBool (b : bool)
| VInt (z : Z)
| VString (s : string)
| VBytes (s : string)
| VKey (k : KeyPtr)
| VKeys (ks : list KeyPtr)
| VList (xs : list Value)
| VOther (typeName : string).

(** [reflect.TypeOf(v)] as text, for error messages. *)
Definition typeName (v : Value) : string :=
  match v with
  | VNil => "<nil>"
  | VBool _ => "bool"
  | VInt _ => "int64"
  | VString _ => "string"
  | VBytes _ => "[]uint8"
  | VKey _ => "*datastore.Key"
  | VKeys _ => "[]*datastore.Key"
  | VList _ => "[]interface {}"
  | VOther t => t
  end.

(** ** Scope, filters, statements *)

(** The operators: those the switch of [buildWhere] names, and the ones
    that only occur on JSON filters, which the dialect renders. *)
Inductive Operator : Type :=
| Equal | EqualTo | NotEqual
| LessThan | LessEqual | GreaterThan | GreaterEqual
| AnyLike | Like | NotLike
| ContainAny | IsObject | IsArray | IsType
| In | NotIn.

(** A filter; its methods [Field] and [IsJSON] read the fields [field]
    and [isJSON]. *)
Record Filter : Type := mkFilter {
  field : string;
  operator : Operator;
  value : Value;
  isJSON : bool
}.

Inductive sortDirection : Type := ascending | descending.

Record order : Type := mkOrder {
  order_field : string;
  direction : sortDirection
}.

Inductive locked : Type := NoLock | ReadLock | WriteLock.

Record group : Type := mkGroup {
  isGroup : bool;
  data : list Value
}.

Record scope : Type := mkScope {
  table : string;
  distinctOn : list string;
  projection : list string;
  omits : list string;
  ancestors : list group;
  filters : list Filter;
  orders : list order;
  limit : Z;
  offset : Z;
  noScope : bool;
  lockMode : locked
}.

(** [Stmt] of statement.go: the text written to [query], and [args]. *)
Record Stmt : Type := mkStmt {
  query : string;
  args : list Value
}.

Definition Raw (s : Stmt) : string := query s.
Definition Args (s : Stmt) : list Value := args s.
Definition isZero (s : Stmt) : bool := negb (0 <? GoStr.Len (query s))%Z.

(** db.go *)
Definition pkColumn : string := "$Key".
Definition softDeleteColumn : string := "$Deleted".
Definition ErrInvalidCursor : string := "goloquent: invalid cursor".

(** builder.go *)
Definition variable : string := "?".

Definition nilDereference : string :=
  "runtime error: invalid memory address or nil pointer dereference".

(** The capability set of a backend the builder calls. *)
Record Dialect : Type := mkDialect {
  Quote : string -> string;
  GetTable : string -> string;
  FilterJSON : Filter -> result (string * list Value);
  OnConflictUpdate : string -> list string -> result string;
  UpdateWithLimit : bool
}.

(** [Property{name, typeOf, Value}], as [putStmt] builds one. *)
Record Property : Type := mkProperty {
  prop_name : list string;
  prop_typeOf : string;
  prop_Value : Value
}.

(** What the builder uses of the package without its source being at
    hand: the logical key field's name, the filter's value normalisation,
    the key codec, the string set behind [has], the property methods. *)
Class Package : Type := mkPackage {
  keyFieldName : string;
  Filter_Interface : Filter -> result Value;
  stringPk : KeyPtr -> string;
  stringifyKey : KeyPtr -> string;
  (* [newDictionary(l).has(k)] *)
  dictionary_has : list string -> string -> bool;
  (* the methods [Name], [isZero] and [Interface] of a [Property] *)
  Property_Name : Property -> string;
  Property_isZero : Property -> bool;
  Property_Interface : Property -> result Value
}.

(** The reflective view of a model (or slice of models): table name,
    column list, soft-delete support, and per row the value held by the
    key field and what the key assignment, the save hook and [SaveStruct]
    of [putStmt] yield for a list of columns: the values, [None] when
    [SaveStruct] fails, or the error of an earlier step. *)
Record Row : Type := mkRow {
  row_key : Value;
  row_vals : list string -> result (option (list Value))
}.

Record entity : Type := mkEntity {
  Name : string;
  typeOfName : string;
  Columns : list string;
  hasSoftDelete : bool;
  slice : list Row
}.

(** ** builder.go *)

Section Builder.

Context {pkg : Package}.
Variable d : Dialect.

Definition isAlnum (c : ascii) : bool :=
  let n := nat_of_ascii c in
  (((97 <=? n) && (n <=? 122)) || ((65 <=? n) && (n <=? 90))
   || ((48 <=? n) && (n <=? 57)))%nat.

Definition isHead (c : ascii) : bool := Ascii.eqb c "$" || isAlnum c.

Inductive rgxState : Type := RStart | RSeg1 | RDot | RSegN.

(** The automaton of [^[\$a-zA-Z\d]+(\.[a-zA-Z\d]+)*$]. *)
Fixpoint rgxRun (st : rgxState) (s : string) : bool :=
  match s with
  | EmptyString =>
      match st with RSeg1 | RSegN => true | _ => false end
  | String c r =>
      match st with
      | RStart => if isHead c then rgxRun RSeg1 r else false
      | RSeg1 =>
          if isHead c then rgxRun RSeg1 r
          else if Ascii.eqb c "." then rgxRun RDot r else false
      | RDot => if isAlnum c then rgxRun RSegN r else false
      | RSegN =>
          if isAlnum c then rgxRun RSegN r
          else if Ascii.eqb c "." then rgxRun RDot r else false
      end
  end.

Definition quoteIfNecessary (v : string) : string :=
  if rgxRun RStart v then Quote d v else v.

Definition buildSelect (q : scope) : Stmt :=
  let scope0 := "*" in
  let scope1 :=
    if (0 <? length (projection q))%nat
    then GoStr.Join (map quoteIfNecessary (projection q)) ","
    else scope0 in
  let scope2 :=
    if (0 <? length (distinctOn q))%nat
    then "DISTINCT " ++ GoStr.Join (map quoteIfNecessary (distinctOn q)) ","
    else scope1 in
  mkStmt ("SELECT " ++ scope2) [].

(** [interfaceToKeyString] *)
Fixpoint interfaceToKeyString (it : Value) : result Value :=
  match it with
  | VNil => Ok VNil
  | VKey k => Ok (VString (stringPk k))
  | VString s => Ok (VString s)
  | VBytes s => Ok (VString s)
  | VKeys ks => Ok (VList (map (fun kk => VString (stringPk kk)) ks))
  | VList xs =>
      arr <- (fix each (l : list Value) : result (list Value) :=
                match l with
                | [] => Ok []
                | kk :: r =>
                    k <- interfaceToKeyString kk ;;
                    ks <- each r ;;
                    Ok (k :: ks)
                end) xs ;;
      Ok (VList arr)
  | other =>
      Err ("goloquent: primary key has invalid data type " ++ typeName other)
  end.

(** [x, isOk := v.([]interface{}); if !isOk { x = append(x, v) }] *)
Definition asSlice (v : Value) : list Value :=
  match v with
  | VList x => x
  | _ => [v]
  end.

(** [fmt.Sprintf("%s %s %s", name, op, vv)] *)
Definition sprintf3 (name op vv : string) : string :=
  name ++ " " ++ op ++ " " ++ vv.

(** The [In]/[NotIn] branches: one parenthesised list of placeholders. *)
Definition inClause (name op opName : string) (v : Value)
  : result (string * list Value) :=
  let x := asSlice v in
  if (length x <=? 0)%nat
  then Err ("value for " ++ GoStr.quoted opName ++ " operator cannot be empty")
  else
    let vv := "(" ++ GoStr.TrimRight
                       (GoStr.Repeat (variable ++ ",") (length x)) "," ++ ")" in
    Ok (sprintf3 name op vv, x).

(** The [AnyLike] branch: one [LIKE] per element, joined by [OR]. *)
Definition anyLikeClause (name : string) (v : Value)
  : result (string * list Value) :=
  let x := asSlice v in
  if (length x <=? 0)%nat
  then Err ("value for " ++ GoStr.quoted "AnyLike" ++ " operator cannot be empty")
  else
    let buf := "(" ++ GoStr.Repeat (name ++ " LIKE " ++ variable ++ " OR ")
                                   (length x) in
    buf' <- GoStr.Truncate buf (GoStr.Len buf - 4) ;;
    Ok (buf' ++ ")", x).

(** [switch f.Field() { case keyFieldName, pkColumn: ... }]: a filter on
    the key folds to the key column and its value goes through the key
    codec. *)
Definition keyFold (f : Filter) (name : string) (v : Value)
  : result (string * Value) :=
  if (field f =? keyFieldName) || (field f =? pkColumn)
  then v' <- interfaceToKeyString (value f) ;; Ok (Quote d pkColumn, v')
  else Ok (name, v).

(** The [switch f.operator] of [buildWhere], on the column name and the
    value as the lines before it leave them. *)
Definition operatorClause (op : Operator) (name : string) (v : Value)
  : result (string * list Value) :=
  let plain (op : string) := Ok (sprintf3 name op variable, [v]) in
  match op with
  | Equal =>
      match v with
      | VNil => Ok (name ++ " IS NULL", [])
      | _ => plain "="
      end
  | EqualTo => plain "<=>"
  | NotEqual =>
      match v with
      | VNil => Ok (name ++ " IS NOT NULL", [])
      | _ => plain "<>"
      end
  | GreaterThan => plain ">"
  | GreaterEqual => plain ">="
  | LessThan => plain "<"
  | LessEqual => plain "<="
  | AnyLike => anyLikeClause name v
  | Like => plain "LIKE"
  | NotLike => plain "NOT LIKE"
  | In => inClause name "IN" "In" v
  | NotIn => inClause name "NOT IN" "NotIn" v
  | _ => plain "="
  end.

(** One turn of the loop over [query.filters] in [buildWhere]: the clause
    appended to [wheres] and the values appended to [args]. *)
Definition filterClause (f : Filter) : result (string * list Value) :=
  let name := Quote d (field f) in
  v <- Filter_Interface f ;;
  if isJSON f then FilterJSON d f
  else
    '(name, v) <- keyFold f name v ;;
    operatorClause (operator f) name v.

(** The loop over [query.filters], with its two accumulators. *)
Fixpoint filtersLoop (fs : list Filter) (wheres : list string)
  (args : list Value) : result (list string * list Value) :=
  match fs with
  | [] => Ok (wheres, args)
  | f :: r =>
      '(w, a) <- filterClause f ;;
      filtersLoop r (wheres ++ [w])%list (args ++ a)%list
  end.

(** The type assertion of [x] to a key pointer panics on anything else. *)
Definition assertKey (x : Value) : result KeyPtr :=
  match x with
  | VKey k => Ok k
  | other =>
      Panic ("interface conversion: interface {} is " ++ typeName other
             ++ ", not *datastore.Key")
  end.

(** [fmt.Sprintf("%%%s/%%", stringifyKey(k))] *)
Definition ancestorPattern (k : KeyPtr) : Value :=
  VString ("%" ++ stringifyKey k ++ "/%").

(** The inner loop over the keys of an ancestor group. *)
Fixpoint groupLoop (xs : list Value) (buf : string) (args : list Value)
  : result (string * list Value) :=
  match xs with
  | [] => Ok (buf, args)
  | x :: r =>
      k <- assertKey x ;;
      groupLoop r (buf ++ Quote d pkColumn ++ " LIKE " ++ variable ++ " OR ")
                (args ++ [ancestorPattern k])%list
  end.

(** The loop over [query.ancestors]. *)
Fixpoint ancestorsLoop (aas : list group) (wheres : list string)
  (args : list Value) : result (list string * list Value) :=
  match aas with
  | [] => Ok (wheres, args)
  | aa :: r =>
      if isGroup aa then
        '(buf, args') <- groupLoop (data aa) "(" args ;;
        buf' <- GoStr.Truncate buf (GoStr.Len buf - 4) ;;
        ancestorsLoop r (List.app wheres [buf' ++ ")"]) args'
      else
        match data aa with
        | [] => Panic "runtime error: index out of range [0] with length 0"
        | x :: _ =>
            k <- assertKey x ;;
            ancestorsLoop r
              (List.app wheres [Quote d pkColumn ++ " LIKE " ++ variable])
              (args ++ [ancestorPattern k])%list
        end
  end.

(** The tail of [buildWhere]: the clauses joined under [WHERE]. *)
Definition whereText (wheres : list string) : string :=
  if (0 <? length wheres)%nat
  then " WHERE " ++ GoStr.Join wheres " AND "
  else "".

Definition buildWhere (q : scope) : result Stmt :=
  '(wheres, args) <- filtersLoop (filters q) [] [] ;;
  '(wheres, args) <- ancestorsLoop (ancestors q) wheres args ;;
  Ok (mkStmt (whereText wheres) args).

Definition orderTerm (o : order) : string :=
  let name :=
    if order_field o =? keyFieldName
    then Quote d pkColumn
    else Quote d (order_field o) in
  let suffix :=
    match direction o with
    | ascending => " ASC"
    | descending => " DESC"
    end in
  name ++ suffix.

Definition buildOrder (q : scope) : Stmt :=
  let arr := map orderTerm (orders q) in
  mkStmt (if (0 <? length arr)%nat
          then " ORDER BY " ++ GoStr.Join arr ","
          else "") [].

Definition buildLimitOffset (q : scope) : Stmt :=
  let buf := if (0 <? limit q)%Z then " LIMIT " ++ GoStr.itoa (limit q) else "" in
  let buf := if (0 <? offset q)%Z
             then buf ++ " OFFSET " ++ GoStr.itoa (offset q) else buf in
  mkStmt buf [].

Definition buildStmt (q : scope) (args : list Value) : result Stmt :=
  stmt <- buildWhere q ;;
  let '(buf, args) :=
    if negb (isZero stmt)
    then (Raw stmt, (args ++ Args stmt)%list)
    else ("", args) in
  Ok (mkStmt (buf ++ Raw (buildOrder q) ++ Raw (buildLimitOffset q)) args).

Definition withFilters (q : scope) (fs : list Filter) : scope :=
  mkScope (table q) (distinctOn q) (projection q) (omits q) (ancestors q)
          fs (orders q) (limit q) (offset q) (noScope q) (lockMode q).

(** The filter [getStmt] appends for soft-deleting entities. *)
Definition softDeleteFilter : Filter :=
  mkFilter softDeleteColumn Equal VNil false.

Definition lockClause (m : locked) : string :=
  match m with
  | ReadLock => " LOCK IN SHARE MODE"
  | WriteLock => " FOR UPDATE"
  | NoLock => ""
  end.

Definition getStmt (b_query : scope) (e : entity) : result Stmt :=
  let q := b_query in
  let buf := Raw (buildSelect q) ++ " FROM " ++ GetTable d (Name e) in
  let q :=
    if negb (noScope q) && hasSoftDelete e
    then withFilters q (filters q ++ [softDeleteFilter])%list
    else q in
  stmt <- buildStmt q [] ;;
  let buf := buf ++ Raw stmt in
  let buf := buf ++ lockClause (lockMode q) in
  let buf := buf ++ ";" in
  Ok (mkStmt buf (Args stmt)).

(** *** Insert and upsert *)

(** One turn of the row loop of [putStmt]. *)
Definition putRow (cols : list string) (i : nat) (row : Row) (buf : string)
  (args : list Value) : result (option (string * list Value)) :=
  props <- row_vals row cols ;;
  match props with
  | None => Ok None
  | Some vals =>
      let buf := if negb (i =? 0)%nat then buf ++ "," else buf in
      let buf := buf ++ "(" ++ GoStr.Repeat (variable ++ ",") (length cols) in
      buf <- GoStr.Truncate buf (GoStr.Len buf - 1) ;;
      Ok (Some (buf ++ ")", (args ++ vals)%list))
  end.

Fixpoint putRows (cols : list string) (i : nat) (rows : list Row)
  (buf : string) (args : list Value) : result (option (string * list Value)) :=
  match rows with
  | [] => Ok (Some (buf, args))
  | row :: r =>
      st <- putRow cols i row buf args ;;
      match st with
      | None => Ok None
      | Some (buf, args) => putRows cols (S i) r buf args
      end
  end.

(** [putStmt]; [None] is its [return nil, nil]. *)
Definition putStmt (e : entity) : result (option Stmt) :=
  let cols := Columns e in
  let buf := "INSERT INTO " ++ GetTable d (Name e) ++ " ("
             ++ Quote d (GoStr.Join cols (Quote d ",")) ++ ") " ++ "VALUES " in
  st <- putRows cols 0 (slice e) buf [] ;;
  match st with
  | None => Ok None
  | Some (buf, args) => Ok (Some (mkStmt (buf ++ ";") args))
  end.

(** A Go slice of strings: the backing array and the length in use. *)
Record strSlice : Type := mkSlice {
  backing : list string;
  slen : nat
}.

Definition sliceOf (l : list string) : strSlice := mkSlice l (length l).
Definition elems (s : strSlice) : list string := firstn (slen s) (backing s).

(** [cols = append(cols[:i], cols[i+1:]...)]: the tail moves one cell to
    the left inside the backing array; [cols[i+1:]] panics when [i+1]
    exceeds the length in use. *)
Definition removeAt (s : strSlice) (i : nat) : result strSlice :=
  if (slen s <? i + 1)%nat
  then Panic "runtime error: slice bounds out of range"
  else
    let arr := backing s in
    let moved := firstn (slen s - (i + 1)) (skipn (i + 1) arr) in
    Ok (mkSlice (firstn i arr ++ moved ++ skipn (slen s - 1) arr)%list
                (slen s - 1)).

(** The loop of [upsert] over [range cols]: the indices run over the
    length the slice had at the start, each element is read from the
    backing array as the earlier turns left it. *)
Fixpoint omitLoop (omitted : list string) (idx : list nat) (cols : strSlice)
  : result strSlice :=
  match idx with
  | [] => Ok cols
  | i :: r =>
      let c := nth i (backing cols) "" in
      if negb (dictionary_has omitted c)
      then omitLoop omitted r cols
      else cols' <- removeAt cols i ;; omitLoop omitted r cols'
  end.

Definition conflictColumns (b_query : scope) (e : entity)
  : result (list string) :=
  let cols := sliceOf (Columns e) in
  cols <- omitLoop (omits b_query) (seq 0 (slen cols)) cols ;;
  Ok (elems cols).

(** [upsert]: the statement handed to the client; [None] when there is no
    row and nothing is executed. *)
Definition upsert (b_query : scope) (e : entity) : result (option Stmt) :=
  if (length (slice e) <=? 0)%nat then Ok None
  else
    stmt <- putStmt e ;;
    cols <- conflictColumns b_query e ;;
    match stmt with
    | None => Panic nilDereference
    | Some stmt =>
        let buf := Raw stmt in
        buf <- GoStr.Truncate buf (GoStr.Len buf - 1) ;;
        clause <- (if (0 <? length cols)%nat
                   then c <- OnConflictUpdate d (Name e) cols ;; Ok (" " ++ c)
                   else Ok "") ;;
        Ok (Some (mkStmt (buf ++ clause ++ ";") (Args stmt)))
    end.

(** *** Bulk update from a struct *)

(** The model handed to [updateWithStruct]: the verdict of
    [checkSinglePtr] and the properties [SaveStruct] yields, in the order
    the loop visits them. *)
Record structModel : Type := mkStructModel {
  checkSinglePtr : option string;
  SaveStruct : result (list Property)
}.

(** The test of the loop body: [true] when the property is skipped. *)
Definition skipped (b_query : scope) (p : Property) : bool :=
  let name := Property_Name p in
  (name =? keyFieldName)
  || (negb (dictionary_has (projection b_query) name) && Property_isZero p).

Fixpoint setLoop (b_query : scope) (props : list Property) (buf : string)
  (args : list Value) : result (string * list Value) :=
  match props with
  | [] => Ok (buf, args)
  | p :: r =>
      if skipped b_query p then setLoop b_query r buf args
      else
        it <- Property_Interface p ;;
        setLoop b_query r
          (buf ++ Quote d (Property_Name p) ++ " = " ++ variable ++ ",")
          (args ++ [it])%list
  end.

Definition updateWithStruct (b_query : scope) (model : structModel)
  : result Stmt :=
  match checkSinglePtr model with
  | Some err => Err err
  | None =>
      props <- SaveStruct model ;;
      '(buf, args) <- setLoop b_query props "" [] ;;
      buf <- GoStr.Truncate buf (GoStr.Len buf - 1) ;;
      Ok (mkStmt buf args)
  end.

(** *** Delete *)

Fixpoint keysLoop (e : entity) (i : nat) (rows : list Row) (buf : string)
  (args : list Value) : result (string * list Value) :=
  match rows with
  | [] => Ok (buf, args)
  | f :: r =>
      let buf := if negb (i =? 0)%nat then buf ++ "," else buf in
      match row_key f with
      | VKey kk =>
          match kk with
          | None => Panic nilDereference
          | Some k =>
              if Incomplete k
              then Err ("goloquent: entity " ++ GoStr.quoted (typeOfName e)
                        ++ " has incomplete key")
              else keysLoop e (S i) r (buf ++ variable)
                            (args ++ [VString (stringPk kk)])%list
          end
      | _ => Err ("goloquent: entity " ++ GoStr.quoted (typeOfName e)
                  ++ " has no primary key property")
      end
  end.

Definition concatKeys (e : entity) : result Stmt :=
  '(buf, args) <- keysLoop e 0 (slice e) "(" [] ;;
  Ok (mkStmt (buf ++ ")") args).

(** [now] is [time.Now().UTC().Format("2006-01-02 15:04:05")]. *)
Definition softDeleteStmt (now : string) (e : entity) : result Stmt :=
  let buf := "UPDATE " ++ GetTable d (Name e) ++ " SET "
             ++ Quote d softDeleteColumn ++ " = " ++ variable ++ " WHERE "
             ++ Quote d pkColumn ++ " IN " in
  let args := [VString now] in
  stmt <- concatKeys e ;;
  Ok (mkStmt (buf ++ Raw stmt ++ ";") (args ++ Args stmt)%list).

Definition deleteStmt (now : string) (e : entity) (isSoftDelete : bool)
  : result Stmt :=
  if isSoftDelete && hasSoftDelete e then softDeleteStmt now e
  else
    let buf := "DELETE FROM " ++ GetTable d (Name e) ++ " WHERE "
               ++ Quote d pkColumn ++ " IN " in
    stmt <- concatKeys e ;;
    Ok (mkStmt (buf ++ Raw stmt ++ ";") (Args stmt)).

(** *** Pagination *)

Record Pagination : Type := mkPagination {
  Cursor : string;
  Limit : Z
}.

(** [paginate]: every statement of its body is commented out but the
    last; it returns [nil] and hands nothing to the client.  The pair is
    the returned error and the statements sent. *)
Definition paginate (b_query : scope) (p : Pagination) (model : entity)
  : option string * list Stmt :=
  (None, []).

End Builder.

(** *** The mysql dialect *)

(** mysql's [Quote], [OnConflictUpdate] and [UpdateWithLimit]; [GetTable]
    and [FilterJSON] come from the embedded [sequel], taken as given. *)
Definition mysql_Quote (n : string) : string := "`" ++ n ++ "`".

Definition mysql_OnConflictUpdate (table : string) (cols : list string)
  : result string :=
  let buf :=
    fold_left
      (fun buf c => buf ++ mysql_Quote c ++ "=VALUES(" ++ mysql_Quote c ++ "),")
      cols "ON DUPLICATE KEY UPDATE " in
  GoStr.Truncate buf (GoStr.Len buf - 1).

Definition mysql (getTable : string -> string)
  (filterJSON : Filter -> result (string * list Value)) : Dialect :=
  mkDialect mysql_Quote getTable filterJSON mysql_OnConflictUpdate true.

(** ** Transactions *)

Module Sql.

(** What the driver answers to [Begin], [Commit] and [Rollback]. *)
Record Driver : Type := mkDriver {
  beginErr : option string;
  commitErr : option string;
  rollbackErr : option string
}.

Inductive call : Type := DriverCommit | DriverRollback.

(** [sql.Tx]: once committed or rolled back it is done, and a later
    [Commit] or [Rollback] returns [ErrTxDone] without reaching the
    driver. *)
Record Tx : Type := mkTx {
  done : bool;
  calls : list call;
  driver : Driver
}.

Definition ErrTxDone : string :=
  "sql: transaction has already been committed or rolled back".

Definition Begin (drv : Driver) : result Tx :=
  match beginErr drv with
  | Some err => Err err
  | None => Ok (mkTx false [] drv)
  end.

Definition Commit (tx : Tx) : option string * Tx :=
  if done tx then (Some ErrTxDone, tx)
  else (commitErr (driver tx),
        mkTx true (calls tx ++ [DriverCommit])%list (driver tx)).

Definition Rollback (tx : Tx) : option string * Tx :=
  if done tx then (Some ErrTxDone, tx)
  else (rollbackErr (driver tx),
        mkTx true (calls tx ++ [DriverRollback])%list (driver tx)).

End Sql.

(** The connection behind a client: a [sql.DB] or a [sql.Tx]. *)
Inductive sqlCommon : Type :=
| SqlDB (drv : Sql.Driver)
| SqlTx (tx : Sql.Tx).

Record DB : Type := mkDB {
  client_sqlCommon : sqlCommon
}.

(** How a Go call ends: it returns its [error], or it panics. *)
Inductive outcome : Type :=
| Return (err : option string)
| Panics (v : string).

Definition TransactionHandler := DB -> outcome.

(** The state a deferred call runs in: the panic in flight, if any, and
    the transaction. *)
Record frame : Type := mkFrame {
  panicking : option string;
  tx : Sql.Tx
}.

Definition deferred := frame -> frame.

(** [defer func() { if r := recover(); r != nil { defer tx.Rollback() } }()] *)
Definition deferRecover : deferred :=
  fun fr =>
    match panicking fr with
    | Some r => mkFrame None (snd (Sql.Rollback (tx fr)))
    | None => fr
    end.

(** [defer tx.Rollback()] *)
Definition deferRollback : deferred :=
  fun fr => mkFrame (panicking fr) (snd (Sql.Rollback (tx fr))).

(** Deferred calls run last registered first. *)
Definition runDeferred (registered : list deferred) (fr : frame) : frame :=
  fold_left (fun fr f => f fr) (rev registered) fr.

(** [runInTransaction]: how the call ends, and the transaction it began,
    if any, as the call leaves it.  A recovered panic makes the function
    return the zero value of its unnamed result. *)
Definition runInTransaction (b_db : DB) (cb : TransactionHandler)
  : outcome * option Sql.Tx :=
  match client_sqlCommon b_db with
  | SqlTx _ => (Return (Some "goloquent: unable to initiate transaction"), None)
  | SqlDB conn =>
      match Sql.Begin conn with
      | Ok tx0 =>
          let db := mkDB (SqlTx tx0) in
          let registered := [deferRecover; deferRollback] in
          let '(body, tx1) :=
            match cb db with
            | Return (Some err) => (Return (Some err), tx0)
            | Return None =>
                let '(r, tx') := Sql.Commit tx0 in (Return r, tx')
            | Panics v => (Panics v, tx0)
            end in
          let inFlight :=
            match body with Panics v => Some v | Return _ => None end in
          let fr := runDeferred registered (mkFrame inFlight tx1) in
          (match panicking fr with
           | Some v => Panics v
           | None =>
               match body with
               | Return r => Return r
               | Panics _ => Return None
               end
           end, Some (tx fr))
      | Err err | Panic err =>
          (Return (Some ("goloquent: unable to begin transaction, " ++ err)),
           None)
      end
  end.

(** ** Vocabulary of the statements below *)

Section Vocabulary.

Context {pkg : Package}.
Variable d : Dialect.

(** The column a filter is rendered on: the key column for a filter on
    the key, the quoted field otherwise. *)
Definition columnOf (f : Filter) : string :=
  if (field f =? keyFieldName) || (field f =? pkColumn)
  then Quote d pkColumn
  else Quote d (field f).

(** The value of a filter as the operator switch of [buildWhere] sees it:
    after [f.Interface()] and, for a filter on the key, the key codec. *)
Definition switchValue (f : Filter) : result Value :=
  v <- Filter_Interface f ;;
  '(_, v') <- keyFold d f (Quote d (field f)) v ;;
  Ok v'.

Definition operatorName (op : Operator) : string :=
  match op with
  | In => "In"
  | NotIn => "NotIn"
  | AnyLike => "AnyLike"
  | _ => ""
  end.

(** The usage error of an empty value list. *)
Definition emptyValueError (op : Operator) : string :=
  "value for " ++ GoStr.quoted (operatorName op) ++ " operator cannot be empty".

(** [n] placeholders in one parenthesised list. *)
Definition placeholderList (n : nat) : string :=
  "(" ++ GoStr.Join (repeat variable n) "," ++ ")".


(** The composition of a SELECT in the order the specification words it:
    SELECT, FROM, WHERE, lock clause, ORDER BY, LIMIT/OFFSET, terminator. *)
Definition composeAsStated (q : scope) (e : entity) (whereFragment : string)
  : string :=
  Raw (buildSelect d q) ++ " FROM " ++ GetTable d (Name e) ++ whereFragment
  ++ lockClause (lockMode q) ++ Raw (buildOrder d q)
  ++ Raw (buildLimitOffset q) ++ ";".

End Vocabulary.

(** ** Concrete instances for the examples *)

Definition sampleKeyString (k : KeyPtr) : string :=
  match k with
  | None => ""
  | Some (mkKey kind id name _ _) =>
      kind ++ "," ++ (if name =? "" then GoStr.itoa id else "'" ++ name ++ "'")
  end.

Definition sampleIsZero (p : Property) : bool :=
  match prop_Value p with
  | VNil | VInt 0 | VString "" | VBool false => true
  | _ => false
  end.

Definition samplePackage : Package :=
  mkPackage "__key__" (fun f => Ok (value f)) sampleKeyString sampleKeyString
            (fun l k => existsb (String.eqb k) l)
            (fun p => GoStr.Join (prop_name p) ".")
            sampleIsZero
            (fun p => Ok (prop_Value p)).

Definition sampleDialect : Dialect :=
  mysql (fun n => "`db`." ++ mysql_Quote n) (fun _ => Err "json").

Definition sampleScope (fs : list Filter) : scope :=
  mkScope "User" [] [] [] [] fs [] 0 0 false NoLock.

(** Adults by name, ten at most, locked for update. *)
Definition lockedScope : scope :=
  mkScope "User" [] [] [] [] [mkFilter "Age" GreaterThan (VInt 18) false]
          [mkOrder "Name" ascending] 10 0 false WriteLock.

Definition sampleColumns : list string := ["$Key"; "Name"; "Age"; "Email"].

Definition plainEntity : entity :=
  mkEntity "User" "User" sampleColumns false [].

Definition softEntity (rows : list Row) : entity :=
  mkEntity "User" "User" sampleColumns true rows.

Definition keyAlice : Key := mkKey "User" 1 "" None "".
Definition keyBob : Key := mkKey "User" 0 "bob" None "".
Definition keyNone : Key := mkKey "User" 0 "" None "".

(** A row that holds key [k] and yields [vals] for the columns. *)
Definition rowOf (k : Key) (vals : list Value) : Row :=
  mkRow (VKey (Some k)) (fun _ => Ok (Some vals)).

Definition twoRows : list Row :=
  [rowOf keyAlice [VString "User,1"; VString "alice"; VInt 31; VString "a@x"];
   rowOf keyBob [VString "User,'bob'"; VString "bob"; VInt 47; VString "b@x"]].

(** The scope of an upsert that omits the given fields. *)
Definition omitScope (omitted : list string) : scope :=
  mkScope "User" [] [] omitted [] [] [] 0 0 false NoLock.

(** The scope of a bulk update that projects the given fields. *)
Definition projectScope (projected : list string) : scope :=
  mkScope "User" [] projected [] [] [] [] 0 0 false NoLock.


Definition plainDriver : Sql.Driver := Sql.mkDriver None None None.

(** ** statement.go: rendering a statement for the log *)

Module Render.

(** [strings.Split(s, sep)] for a separator of one byte. *)
Fixpoint splitByte (c : ascii) (s : string) : list string :=
  match s with
  | EmptyString => [EmptyString]
  | String x r =>
      if Ascii.eqb x c then EmptyString :: splitByte c r
      else
        match splitByte c r with
        | h :: t => String x h :: t
        | [] => [String x EmptyString]
        end
  end.

(** The number of placeholders of a text. *)
Fixpoint placeholders (s : string) : nat :=
  match s with
  | EmptyString => 0
  | String x r => (if Ascii.eqb x "?" then 1 else 0) + placeholders r
  end.

(** The loop of [String] over [s.args]: [arr[i]] panics past the end of
    [arr]; [s.replacer.Value] panics on a nil replacer. *)
Fixpoint stringLoop (replacer : option (Value -> string)) (arr : list string)
  (i : nat) (args : list Value) (buf : string) : result string :=
  match args with
  | [] => Ok buf
  | aa :: r =>
      match nth_error arr i with
      | None => Panic "runtime error: index out of range"
      | Some seg =>
          match replacer with
          | None => Panic nilDereference
          | Some render =>
              stringLoop replacer arr (S i) r (buf ++ seg ++ render aa)
          end
      end
  end.

(** [String] of [Stmt]. *)
Definition String_ (replacer : option (Value -> string)) (s : Stmt)
  : result string :=
  let arr := splitByte "?" (query s) in
  buf <- stringLoop replacer arr 0 (args s) "" ;;
  Ok (buf ++ last arr "").

(** The text with its placeholders replaced, one after the other, by the
    rendered values. *)
Fixpoint interpolate (render : Value -> string) (q : string)
  (vals : list Value) : string :=
  match q with
  | EmptyString => EmptyString
  | String x r =>
      if Ascii.eqb x "?" then
        match vals with
        | v :: vs => render v ++ interpolate render r vs
        | [] => String x (interpolate render r [])
        end
      else String x (interpolate render r vals)
  end.

(** The segments of a split text with a rendered value after each but the
    last. *)
Fixpoint weave (render : Value -> string) (segs : list string)
  (vals : list Value) : string :=
  match segs with
  | [] => EmptyString
  | [seg] => seg
  | seg :: rest =>
      match vals with
      | v :: vs => seg ++ render v ++ weave render rest vs
      | [] => seg ++ weave render rest []
      end
  end.

End Render.

(** ** Further vocabulary *)

Fixpoint allChars (f : ascii -> bool) (s : string) : bool :=
  match s with
  | EmptyString => true
  | String c r => f c && allChars f r
  end.

Fixpoint someChar (f : ascii -> bool) (s : string) : bool :=
  match s with
  | EmptyString => false
  | String c r => f c || someChar f r
  end.

(** A byte no identifier of [quoteIfNecessary] holds: not a letter, a
    digit, a dollar or a dot. *)
Definition foreignChar (c : ascii) : bool :=
  negb (Ascii.eqb c "$") && negb (isAlnum c) && negb (Ascii.eqb c ".").


Section AncestorVocabulary.

Context {pkg : Package}.
Variable d : Dialect.

(** The keys an ancestor constraint holds. *)
Definition keysOf (aa : group) : list KeyPtr :=
  flat_map (fun x => match x with VKey k => [k] | _ => [] end) (data aa).

(** The clause of an ancestor constraint: one [LIKE] on the key column,
    or one per key of a group, joined by [OR] in brackets. *)
Definition ancestorClause (aa : group) : string :=
  if isGroup aa
  then "(" ++ GoStr.Join (repeat (Quote d pkColumn ++ " LIKE ?")
                                 (length (data aa))) " OR " ++ ")"
  else Quote d pkColumn ++ " LIKE ?".

(** Its arguments: the pattern of every key of a group, of the first key
    otherwise. *)
Definition ancestorArgs (aa : group) : list Value :=
  map ancestorPattern
      (if isGroup aa then keysOf aa else firstn 1 (keysOf aa)).

End AncestorVocabulary.


(** One assignment of mysql's conflict clause. *)
Definition mysql_conflictAssignment (c : string) : string :=
  mysql_Quote c ++ "=VALUES(" ++ mysql_Quote c ++ ")".


(** ** builder.go: updates from a map, saving one entity *)

Section Mutations.

Context {pkg : Package}.
Variable d : Dialect.

(** [normalizeValue], [interfaceToValue] and [marshal], one after the
    other, as [updateWithMap] applies them to a value of the map. *)
Variable marshalValue : Value -> result Value.

(** [fmt.Sprintf("%v", pk)] on a key pointer. *)
Variable keyText : KeyPtr -> string.

(** [reflect.Kind] of a map key, as text. *)
Definition kindName (k : Value) : string :=
  match k with
  | VNil => "invalid"
  | VBool _ => "bool"
  | VInt _ => "int64"
  | VString _ => "string"
  | VBytes _ | VKeys _ | VList _ => "slice"
  | VKey _ => "ptr"
  | VOther t => t
  end.

(** The loop of [updateWithMap] over the keys of the map, in the order
    [MapKeys] yields them. *)
Fixpoint mapLoop (i : nat) (entries : list (Value * Value)) (buf : string)
  (args : list Value) : result (string * list Value) :=
  match entries with
  | [] => Ok (buf, args)
  | (k, vv) :: r =>
      let buf := if (0 <? i)%nat then buf ++ "," else buf in
      match k with
      | VString kk =>
          if kk =? keyFieldName
          then Err "goloquent: update __key__ is not allow"
          else
            let buf := buf ++ Quote d kk ++ " = " ++ variable in
            vi <- marshalValue vv ;;
            mapLoop (S i) r buf (List.app args [vi])
      | other =>
          Err ("goloquent: invalid map key data type, "
               ++ GoStr.quoted (kindName other))
      end
  end.

Definition updateWithMap (entries : list (Value * Value)) : result Stmt :=
  '(buf, args) <- mapLoop 0 entries "" [] ;;
  Ok (mkStmt buf args).

(** The first model of the slice handed to [saveMutation]: the verdict of
    its [Save] hook and the properties [SaveStruct] yields, as the map
    from column name to property in the order the loop visits it. *)
Record savedModel : Type := mkSavedModel {
  saveHook : option string;
  savedProps : result (list (string * Property))
}.

(** [props[k]]: the zero [Property] when the map has no such key. *)
Definition lookupProp (props : list (string * Property)) (k : string)
  : Property :=
  match find (fun kp => fst kp =? k) props with
  | Some kp => snd kp
  | None => mkProperty [] "" VNil
  end.

(** [delete(props, k)] *)
Definition deleteProp (props : list (string * Property)) (k : string)
  : list (string * Property) :=
  filter (fun kp => negb (fst kp =? k)) props.

Fixpoint saveLoop (omitted : list string) (props : list (string * Property))
  (buf : string) (args : list Value) : result (string * list Value) :=
  match props with
  | [] => Ok (buf, args)
  | (k, p) :: r =>
      if dictionary_has omitted k then saveLoop omitted r buf args
      else
        it <- Property_Interface p ;;
        saveLoop omitted r (buf ++ Quote d k ++ " = " ++ variable ++ ",")
                 (List.app args [it])
  end.

(** [saveMutation] on the models [models] of an entity named [name]
    whose Go type is [typ]; [None] is the empty statement it returns for
    an empty slice. *)
Definition saveMutation (b_query : scope) (name typ : string)
  (models : list savedModel) : result (option Stmt) :=
  match models with
  | [] => Ok None
  | f :: _ =>
      let buf := "UPDATE " ++ GetTable d name ++ " SET " in
      match saveHook f with
      | Some err => Err err
      | None =>
          props <- savedProps f ;;
          match prop_Value (lookupProp props keyFieldName) with
          | VKey pk =>
              let props := deleteProp props keyFieldName in
              if match pk with None => true | Some k => Incomplete k end
              then Err ("goloquent: invalid key value, " ++ keyText pk)
              else
                '(buf, args) <- saveLoop (omits b_query) props buf [] ;;
                buf <- GoStr.Truncate buf (GoStr.Len buf - 1) ;;
                Ok (Some (mkStmt
                            (buf ++ " WHERE " ++ Quote d pkColumn ++ " = "
                             ++ variable ++ ";")
                            (List.app args [VString (stringPk pk)])))
          | _ =>
              Err ("goloquent: entity " ++ GoStr.quoted typ
                   ++ " has no primary key property")
          end
      end
  end.

End Mutations.

(** ** builder.go and db.go: truncating tables *)

Section Truncation.

Variable d : Dialect.

(** The client: executing a statement moves the database from one state
    to the next and may fail. *)
Variable database : Type.
Variable ExecStmt : Stmt -> database -> option string * database.

(** [truncate] of the builder: one statement per table, until one fails. *)
Fixpoint truncate (tables : list string) (db : database)
  : option string * database :=
  match tables with
  | [] => (None, db)
  | name :: r =>
      match ExecStmt (mkStmt ("TRUNCATE TABLE " ++ GetTable d name ++ ";") [])
                     db with
      | (Some err, db') => (Some err, db')
      | (None, db') => truncate r db'
      end
  end.

(** What [Truncate] of [DB] is handed as a model: nil, a string, a
    struct, or anything else. *)
Inductive tableModel : Type :=
| ModelNil
| ModelString (s : string)
| ModelStruct (typeName : string)
| ModelOther.

(** [strings.TrimSpace] *)
Variable TrimSpace : string -> string.

(** The loop of [Truncate] of [DB] that resolves the table names. *)
Fixpoint tableNames (models : list tableModel) (ns : list string)
  : result (list string) :=
  match models with
  | [] => Ok ns
  | m :: r =>
      match m with
      | ModelNil => Panic "reflect: call of reflect.Value.Type on zero Value"
      | ModelOther => Err "goloquent: unsupported model"
      | ModelString s | ModelStruct s =>
          let table := TrimSpace s in
          if table =? "" then Err "goloquent: missing table name"
          else tableNames r (List.app ns [table])
      end
  end.

(** A model [Truncate] of [DB] refuses: no string and no struct, or a
    name that is blank. *)
Definition refused (m : tableModel) : Prop :=
  match m with
  | ModelNil => False
  | ModelOther => True
  | ModelString s | ModelStruct s => TrimSpace s = ""
  end.

(** [Truncate] of [DB]: the error it returns and the database as it
    leaves it, or its panic. *)
Definition DB_Truncate (models : list tableModel) (db : database)
  : result (option string * database) :=
  ns <- match tableNames models [] with
        | Err err => Ok (inl err)
        | Ok ns => Ok (inr ns)
        | Panic m => Panic m
        end ;;
  match ns with
  | inl err => Ok (Some err, db)
  | inr ns => Ok (truncate ns db)
  end.

End Truncation.


(** Applying a fallible function to every element, in order, until one
    fails. *)
Fixpoint mapResult {A B : Type} (f : A -> result B) (l : list A)
  : result (list B) :=
  match l with
  | [] => Ok []
  | x :: r =>
      y <- f x ;;
      ys <- mapResult f r ;;
      Ok (y :: ys)
  end.


(** ** Further concrete instances *)

Definition sampleRender (v : Value) : string :=
  match v with
  | VNil => "NULL"
  | VInt z => GoStr.itoa z
  | VString s => "'" ++ s ++ "'"
  | _ => "<value>"
  end.

Definition sampleGroup : group :=
  mkGroup true [VKey (Some keyAlice); VKey (Some keyBob)].

Definition sampleAncestor : group := mkGroup false [VKey (Some keyAlice)].

(** A scope with the given filters and ancestor constraints. *)
Definition ancestorScope (fs : list Filter) (aas : list group) : scope :=
  mkScope "User" [] [] [] aas fs [] 0 0 false NoLock.

(** A database that records the statements it is sent and refuses to
    truncate the table [Locked]. *)
Definition sampleExec (s : Stmt) (log : list string)
  : option string * list string :=
  (if query s =? "TRUNCATE TABLE `db`.`Locked`;"
   then Some "table is locked" else None,
   List.app log [query s]).

Definition sampleSaved (k : Key) : savedModel :=
  mkSavedModel None
    (Ok [("__key__", mkProperty ["__key__"] "*datastore.Key" (VKey (Some k)));
         ("Name", mkProperty ["Name"] "string" (VString "alice"));
         ("Age", mkProperty ["Age"] "int64" (VInt 31))]).

(** A row whose key field holds the nil key pointer. *)
Definition nilKeyRow : Row := mkRow (VKey None) (fun _ => Ok None).

(** A row on which [SaveStruct] fails. *)
Definition brokenRow : Row := mkRow (VKey (Some keyBob)) (fun _ => Ok None).

(** A model whose fields are all zero. *)
Definition zeroStruct : structModel :=
  mkStructModel None
    (Ok [mkProperty ["__key__"] "*datastore.Key" (VKey (Some keyAlice));
         mkProperty ["Name"] "string" (VString "");
         mkProperty ["Age"] "int64" (VInt 0)]).


(** A slice over an array of [n] cells whose last cell holds [z] and
    whose length in use does not exceed the array. *)
Definition keepsLast (n : nat) (z : string) (s : strSlice) : Prop :=
  length (backing s) = n /\ nth (n - 1) (backing s) "" = z /\ slen s <= n.

(** * Properties *)

(** ** Strings and buffers *)

Lemma str_app_assoc (a b c : string) : (a ++ b) ++ c = a ++ (b ++ c).
Proof.
  induction a as [|x a IH]; simpl; [reflexivity | now rewrite IH].
Qed.

Lemma str_app_nil_r (a : string) : a ++ "" = a.
Proof.
  induction a as [|x a IH]; simpl; [reflexivity | now rewrite IH].
Qed.

Lemma str_length_app (a b : string) :
  String.length (a ++ b) = (String.length a + String.length b)%nat.
Proof.
  induction a as [|x a IH]; simpl; [reflexivity | now rewrite IH].
Qed.

Lemma substring_all_prefix (a b : string) :
  substring 0 (String.length a) (a ++ b) = a.
Proof.
  induction a as [|x a IH]; simpl.
  - now destruct b.
  - now rewrite IH.
Qed.

(** Truncating a buffer by the length of its last write undoes the write. *)
Lemma Truncate_last_write (a b : string) :
  GoStr.Truncate (a ++ b)
    (GoStr.Len (a ++ b) - Z.of_nat (String.length b)) = Ok a.
Proof.
  unfold GoStr.Truncate, GoStr.Len.
  rewrite str_length_app.
  replace (Z.of_nat (String.length a + String.length b)
           - Z.of_nat (String.length b))%Z
    with (Z.of_nat (String.length a)) by lia.
  rewrite Nat2Z.id, substring_all_prefix.
  destruct (Z.of_nat (String.length a) <? 0)%Z eqn:E1;
    [apply Z.ltb_lt in E1; lia |].
  destruct (Z.of_nat (String.length a + String.length b)
            <? Z.of_nat (String.length a))%Z eqn:E2;
    [apply Z.ltb_lt in E2; lia |].
  reflexivity.
Qed.

Lemma Truncate_empty_panics (n : Z) :
  (n < 0)%Z -> isOk (GoStr.Truncate "" n) = false.
Proof.
  intros Hn. unfold GoStr.Truncate.
  destruct (n <? 0)%Z eqn:E; [reflexivity | apply Z.ltb_ge in E; lia].
Qed.

Lemma Join_cons (x y : string) (r : list string) (sep : string) :
  GoStr.Join (x :: y :: r) sep = x ++ sep ++ GoStr.Join (y :: r) sep.
Proof. reflexivity. Qed.

(** Writing [s ++ sep] once per element and dropping the last [sep] is
    joining by [sep]. *)
Lemma Repeat_as_Join (s sep : string) (n : nat) :
  GoStr.Repeat (s ++ sep) (S n) = GoStr.Join (repeat s (S n)) sep ++ sep.
Proof.
  induction n as [|n IH].
  - simpl. now rewrite str_app_nil_r.
  - change (GoStr.Repeat (s ++ sep) (S (S n)))
      with ((s ++ sep) ++ GoStr.Repeat (s ++ sep) (S n)).
    rewrite IH.
    change (repeat s (S (S n))) with (s :: s :: repeat s n).
    rewrite Join_cons.
    change (s :: repeat s n) with (repeat s (S n)).
    now rewrite !str_app_assoc.
Qed.

Lemma Join_placeholders_head (n : nat) :
  exists t, GoStr.Join (repeat variable (S n)) "," = String "?" t.
Proof.
  unfold variable. destruct n; simpl; eauto.
Qed.

(** [strings.TrimRight(strings.Repeat("?,", n), ",")] for a positive [n]. *)
Lemma TrimRight_placeholders (n : nat) :
  GoStr.TrimRight (GoStr.Repeat (variable ++ ",") (S n)) ","
  = GoStr.Join (repeat variable (S n)) ",".
Proof.
  induction n as [|n IH].
  - reflexivity.
  - change (GoStr.Repeat (variable ++ ",") (S (S n)))
      with (String "?" (String "," (GoStr.Repeat (variable ++ ",") (S n)))).
    change (repeat variable (S (S n)))
      with (variable :: variable :: repeat variable n).
    rewrite Join_cons.
    change (variable :: repeat variable n) with (repeat variable (S n)).
    destruct (Join_placeholders_head n) as [t Ht].
    cbn [GoStr.TrimRight]. rewrite IH, Ht. reflexivity.
Qed.

(** ** The WHERE loops *)

Section WhereFacts.

Context {pkg : Package}.
Variable d : Dialect.

(** The filter loop only ever appends to its accumulators. *)
Lemma filtersLoop_acc (fs : list Filter) (wheres : list string)
  (args : list Value) :
  filtersLoop d fs wheres args
  = '(w, a) <- filtersLoop d fs [] [] ;;
    Ok (List.app wheres w, List.app args a).
Proof.
  revert wheres args.
  induction fs as [|f r IH]; intros wheres args; simpl.
  - now rewrite !app_nil_r.
  - destruct (filterClause d f) as [[w a]| |]; simpl; try reflexivity.
    rewrite IH. rewrite (IH [w] a).
    destruct (filtersLoop d r [] []) as [[w' a']| |]; simpl; try reflexivity.
    now rewrite <- !app_assoc.
Qed.

Lemma filtersLoop_cons (f : Filter) (r : list Filter) (w : string)
  (a : list Value) (w2 : list string) (a2 : list Value) :
  filterClause d f = Ok (w, a) ->
  filtersLoop d r [] [] = Ok (w2, a2) ->
  filtersLoop d (f :: r) [] [] = Ok (w :: w2, List.app a a2).
Proof.
  intros Hf Hr. simpl. rewrite Hf. simpl.
  rewrite filtersLoop_acc, Hr. reflexivity.
Qed.

Lemma filtersLoop_app (pre post : list Filter) (w1 w2 : list string)
  (a1 a2 : list Value) :
  filtersLoop d pre [] [] = Ok (w1, a1) ->
  filtersLoop d post [] [] = Ok (w2, a2) ->
  filtersLoop d (List.app pre post) [] [] = Ok (List.app w1 w2, List.app a1 a2).
Proof.
  revert w1 a1.
  induction pre as [|f r IH]; intros w1 a1 Hpre Hpost.
  - simpl in Hpre. injection Hpre as <- <-. exact Hpost.
  - simpl in Hpre.
    destruct (filterClause d f) as [[w a]| |] eqn:Hf; simpl in Hpre;
      try discriminate.
    rewrite filtersLoop_acc in Hpre.
    destruct (filtersLoop d r [] []) as [[w' a']| |] eqn:Hr; simpl in Hpre;
      try discriminate.
    injection Hpre as <- <-.
    change (List.app (f :: r) post) with (f :: List.app r post).
    rewrite (filtersLoop_cons f (List.app r post) w a
               (List.app w' w2) (List.app a' a2) Hf (IH _ _ eq_refl Hpost)).
    now rewrite <- !app_assoc.
Qed.

(** A filter the loop cannot compile stops the whole loop: after the
    filters before it, the loop returns that filter's error. *)
Lemma filtersLoop_stops (pre post : list Filter) (f : Filter) (e : string)
  (w1 : list string) (a1 : list Value) :
  filtersLoop d pre [] [] = Ok (w1, a1) ->
  filterClause d f = Err e ->
  filtersLoop d (List.app pre (f :: post)) [] [] = Err e.
Proof.
  revert w1 a1.
  induction pre as [|g r IH]; intros w1 a1 Hpre Hf.
  - simpl. now rewrite Hf.
  - simpl in Hpre |- *.
    destruct (filterClause d g) as [[w a]| |]; simpl in Hpre |- *;
      try discriminate.
    rewrite filtersLoop_acc in Hpre. rewrite filtersLoop_acc.
    destruct (filtersLoop d r [] []) as [[w' a']| |] eqn:Hr; simpl in Hpre;
      try discriminate.
    now rewrite (IH _ _ eq_refl Hf).
Qed.

Lemma filtersLoop_never_ok (pre post : list Filter) (f : Filter) :
  isOk (filterClause d f) = false ->
  isOk (filtersLoop d (List.app pre (f :: post)) [] []) = false.
Proof.
  intros Hf.
  induction pre as [|g r IH]; simpl.
  - destruct (filterClause d f) as [[w a]| |]; simpl in Hf |- *;
      [discriminate | reflexivity | reflexivity].
  - destruct (filterClause d g) as [[w a]| |]; simpl; try reflexivity.
    rewrite filtersLoop_acc.
    change (List.app r (f :: post)) with (r ++ f :: post)%list in *.
    destruct (filtersLoop d (r ++ f :: post)%list [] []) as [[w' a']| |];
      simpl in IH |- *; [discriminate | reflexivity | reflexivity].
Qed.

Lemma groupLoop_acc (xs : list Value) (buf : string) (args : list Value) :
  groupLoop d xs buf args
  = '(b, a) <- groupLoop d xs buf [] ;; Ok (b, List.app args a).
Proof.
  revert buf args.
  induction xs as [|x r IH]; intros buf args; simpl.
  - now rewrite app_nil_r.
  - destruct (assertKey x) as [k| |]; simpl; try reflexivity.
    rewrite IH.
    rewrite (IH _ [ancestorPattern k]).
    destruct (groupLoop d r _ []) as [[b a]| |]; simpl; try reflexivity.
    now rewrite <- app_assoc.
Qed.

(** The ancestor loop only ever appends to its accumulators. *)
Lemma ancestorsLoop_acc (aas : list group) (wheres : list string)
  (args : list Value) :
  ancestorsLoop d aas wheres args
  = '(w, a) <- ancestorsLoop d aas [] [] ;;
    Ok (List.app wheres w, List.app args a).
Proof.
  revert wheres args.
  induction aas as [|aa r IH]; intros wheres args; simpl.
  - now rewrite !app_nil_r.
  - destruct (isGroup aa).
    + rewrite groupLoop_acc.
      destruct (groupLoop d (data aa) "(" []) as [[b a]| |]; simpl;
        try reflexivity.
      destruct (GoStr.Truncate b (GoStr.Len b - 4)) as [b'| |]; simpl;
        try reflexivity.
      rewrite IH. rewrite (IH [b' ++ ")"] a).
      destruct (ancestorsLoop d r [] []) as [[w' a']| |]; simpl;
        try reflexivity.
      now rewrite <- !app_assoc.
    + destruct (data aa) as [|x xs]; [reflexivity |].
      destruct (assertKey x) as [k| |]; simpl; try reflexivity.
      rewrite IH. rewrite (IH [_] [_]).
      destruct (ancestorsLoop d r [] []) as [[w' a']| |]; simpl;
        try reflexivity.
      now rewrite <- !app_assoc.
Qed.

Lemma whereText_cons (w : string) (ws : list string) :
  whereText (w :: ws) = " WHERE " ++ GoStr.Join (w :: ws) " AND ".
Proof. reflexivity. Qed.

(** [buildWhere] in terms of what its two loops yield. *)
Lemma buildWhere_loops (q : scope) (w1 w3 : list string) (a1 a3 : list Value) :
  filtersLoop d (filters q) [] [] = Ok (w1, a1) ->
  ancestorsLoop d (ancestors q) [] [] = Ok (w3, a3) ->
  buildWhere d q
  = Ok (mkStmt (whereText (List.app w1 w3)) (List.app a1 a3)).
Proof.
  intros Hf Ha. unfold buildWhere. rewrite Hf. simpl.
  rewrite ancestorsLoop_acc, Ha. reflexivity.
Qed.

(** [buildWhere] around one filter: the clause and the arguments of the
    filter sit between those of the filters before and after it. *)
Lemma buildWhere_at (q : scope) (pre post : list Filter) (f : Filter)
  (w : string) (a : list Value) (w1 w2 w3 : list string)
  (a1 a2 a3 : list Value) :
  filters q = List.app pre (f :: post) ->
  filtersLoop d pre [] [] = Ok (w1, a1) ->
  filterClause d f = Ok (w, a) ->
  filtersLoop d post [] [] = Ok (w2, a2) ->
  ancestorsLoop d (ancestors q) [] [] = Ok (w3, a3) ->
  buildWhere d q
  = Ok (mkStmt
          (" WHERE "
           ++ GoStr.Join (List.app w1 (w :: List.app w2 w3)) " AND ")
          (List.app a1 (List.app a (List.app a2 a3)))).
Proof.
  intros Hq Hpre Hf Hpost Hanc.
  pose proof (filtersLoop_app pre (f :: post) w1 (w :: w2) a1
                (List.app a a2) Hpre
                (filtersLoop_cons f post w a w2 a2 Hf Hpost)) as Hall.
  rewrite <- Hq in Hall.
  rewrite (buildWhere_loops q _ _ _ _ Hall Hanc).
  f_equal. f_equal.
  - rewrite <- app_assoc. simpl.
    destruct w1; reflexivity.
  - now rewrite <- !app_assoc.
Qed.

Lemma buildWhere_never_ok (q : scope) (pre post : list Filter) (f : Filter) :
  filters q = List.app pre (f :: post) ->
  isOk (filterClause d f) = false ->
  isOk (buildWhere d q) = false.
Proof.
  intros Hq Hf. unfold buildWhere. rewrite Hq.
  pose proof (filtersLoop_never_ok pre post f Hf) as H.
  destruct (filtersLoop d (List.app pre (f :: post)) [] []) as [[w a]| |];
    simpl in H |- *; [discriminate | reflexivity | reflexivity].
Qed.

Lemma buildWhere_stops (q : scope) (pre post : list Filter) (f : Filter)
  (e : string) (w1 : list string) (a1 : list Value) :
  filters q = List.app pre (f :: post) ->
  filtersLoop d pre [] [] = Ok (w1, a1) ->
  filterClause d f = Err e ->
  buildWhere d q = Err e.
Proof.
  intros Hq Hpre Hf. unfold buildWhere.
  now rewrite Hq, (filtersLoop_stops pre post f e w1 a1 Hpre Hf).
Qed.

End WhereFacts.

(** ** The operator switch *)

Section SwitchFacts.

Context {pkg : Package}.
Variable d : Dialect.

Lemma filterClause_switch (f : Filter) (v : Value) :
  isJSON f = false ->
  switchValue d f = Ok v ->
  filterClause d f = operatorClause (operator f) (columnOf d f) v.
Proof.
  unfold switchValue, filterClause, keyFold, columnOf.
  intros HJ Hv. rewrite HJ.
  destruct (Filter_Interface f) as [v0| |]; simpl in Hv |- *;
    try discriminate.
  destruct ((field f =? keyFieldName) || (field f =? pkColumn)).
  - destruct (interfaceToKeyString (value f)) as [v'| |]; simpl in Hv |- *;
      try discriminate.
    now injection Hv as ->.
  - simpl in Hv |- *. now injection Hv as ->.
Qed.

Lemma inClause_nonempty (name op opName : string) (v : Value) :
  asSlice v <> [] ->
  inClause name op opName v
  = Ok (name ++ " " ++ op ++ " " ++ placeholderList (length (asSlice v)),
        asSlice v).
Proof.
  intros Hx. unfold inClause, placeholderList, sprintf3.
  destruct (asSlice v) as [|x r] eqn:E; [congruence |].
  change (length (x :: r)) with (S (length r)).
  cbn [Nat.leb]. now rewrite TrimRight_placeholders.
Qed.

Lemma inClause_empty (name op opName : string) (v : Value) :
  asSlice v = [] ->
  inClause name op opName v
  = Err ("value for " ++ GoStr.quoted opName ++ " operator cannot be empty").
Proof.
  intros Hx. unfold inClause. now rewrite Hx.
Qed.

Lemma anyLikeClause_nonempty (name : string) (v : Value) :
  asSlice v <> [] ->
  anyLikeClause name v
  = Ok ("(" ++ GoStr.Join (repeat (name ++ " LIKE ?") (length (asSlice v)))
                          " OR " ++ ")",
        asSlice v).
Proof.
  intros Hx. unfold anyLikeClause.
  destruct (asSlice v) as [|x r] eqn:E; [congruence |].
  change (length (x :: r)) with (S (length r)).
  cbn [Nat.leb].
  replace (name ++ " LIKE " ++ variable ++ " OR ")
    with ((name ++ " LIKE ?") ++ " OR ")
    by (unfold variable; now rewrite str_app_assoc).
  rewrite Repeat_as_Join.
  change ("(" ++ GoStr.Join (repeat (name ++ " LIKE ?") (S (length r))) " OR "
              ++ " OR ")
    with (("(" ++ GoStr.Join (repeat (name ++ " LIKE ?") (S (length r))) " OR ")
            ++ " OR ").
  rewrite (Truncate_last_write _ " OR "). reflexivity.
Qed.

Lemma anyLikeClause_empty (name : string) (v : Value) :
  asSlice v = [] ->
  anyLikeClause name v = Err (emptyValueError AnyLike).
Proof.
  intros Hx. unfold anyLikeClause. now rewrite Hx.
Qed.


End SwitchFacts.

(** ** WHERE clauses of single filters *)

Section FilterClaims.

Context {pkg : Package}.
Variable d : Dialect.

(** C9. A filter with the [Equal] or [NotEqual] operator whose value is
    nil compiles to [column IS NULL], respectively [column IS NOT NULL]:
    the clause holds no placeholder and the filter adds no argument, so
    the arguments of the statement are those of the other filters and of
    the ancestors. *)
Theorem buildWhere_nil_comparison
  (q : scope) (pre post : list Filter) (f : Filter)
  (w1 w2 w3 : list string) (a1 a2 a3 : list Value) :
  filters q = List.app pre (f :: post) ->
  isJSON f = false ->
  switchValue d f = Ok VNil ->
  filtersLoop d pre [] [] = Ok (w1, a1) ->
  filtersLoop d post [] [] = Ok (w2, a2) ->
  ancestorsLoop d (ancestors q) [] [] = Ok (w3, a3) ->
  (operator f = Equal ->
   filterClause d f = Ok (columnOf d f ++ " IS NULL", [])
   /\ buildWhere d q
      = Ok (mkStmt
              (" WHERE "
               ++ GoStr.Join
                    (List.app w1 ((columnOf d f ++ " IS NULL") :: List.app w2 w3))
                    " AND ")
              (List.app a1 (List.app a2 a3))))
  /\ (operator f = NotEqual ->
      filterClause d f = Ok (columnOf d f ++ " IS NOT NULL", [])
      /\ buildWhere d q
         = Ok (mkStmt
                 (" WHERE "
                  ++ GoStr.Join
                       (List.app w1
                          ((columnOf d f ++ " IS NOT NULL") :: List.app w2 w3))
                       " AND ")
                 (List.app a1 (List.app a2 a3)))).
Proof.
  intros Hq HJ Hv Hpre Hpost Hanc.
  pose proof (filterClause_switch d f VNil HJ Hv) as Hf.
  split; intros Hop; rewrite Hop in Hf; simpl in Hf; (split; [exact Hf |]);
    exact (buildWhere_at d q pre post f _ [] w1 w2 w3 a1 a2 a3
             Hq Hpre Hf Hpost Hanc).
Qed.

(** C8. A filter with the [In], [NotIn] or [AnyLike] operator whose value
    is an empty list makes the compilation of the WHERE clause fail: no
    statement comes out, and after filters that compile the error is the
    usage error of the operator.  On a list of [n > 0] values, [In] and
    [NotIn] render one parenthesised list of [n] placeholders and append
    the [n] values, in order, to the arguments. *)
Theorem buildWhere_list_operators
  (q : scope) (pre post : list Filter) (f : Filter) (x : list Value) :
  filters q = List.app pre (f :: post) ->
  isJSON f = false ->
  switchValue d f = Ok (VList x) ->
  (x = [] ->
   operator f = In \/ operator f = NotIn \/ operator f = AnyLike ->
   isOk (buildWhere d q) = false
   /\ (forall args, isOk (buildStmt d q args) = false)
   /\ (forall w1 a1,
         filtersLoop d pre [] [] = Ok (w1, a1) ->
         buildWhere d q = Err (emptyValueError (operator f))))
  /\ (x <> [] ->
      forall w1 w2 w3 a1 a2 a3,
        filtersLoop d pre [] [] = Ok (w1, a1) ->
        filtersLoop d post [] [] = Ok (w2, a2) ->
        ancestorsLoop d (ancestors q) [] [] = Ok (w3, a3) ->
        (operator f = In ->
         buildWhere d q
         = Ok (mkStmt
                 (" WHERE "
                  ++ GoStr.Join
                       (List.app w1
                          ((columnOf d f ++ " IN " ++ placeholderList (length x))
                             :: List.app w2 w3))
                       " AND ")
                 (List.app a1 (List.app x (List.app a2 a3)))))
        /\ (operator f = NotIn ->
            buildWhere d q
            = Ok (mkStmt
                    (" WHERE "
                     ++ GoStr.Join
                          (List.app w1
                             ((columnOf d f ++ " NOT IN "
                                 ++ placeholderList (length x))
                                :: List.app w2 w3))
                          " AND ")
                    (List.app a1 (List.app x (List.app a2 a3)))))).
Proof.
  intros Hq HJ Hv.
  pose proof (filterClause_switch d f (VList x) HJ Hv) as Hf.
  split.
  - intros -> Hop.
    assert (He : filterClause d f = Err (emptyValueError (operator f))).
    { destruct Hop as [Hop | [Hop | Hop]]; rewrite Hop in Hf |- *;
        exact Hf. }
    assert (Hno : isOk (buildWhere d q) = false).
    { apply (buildWhere_never_ok d q pre post f Hq). now rewrite He. }
    split; [exact Hno |]. split.
    + intros args0. unfold buildStmt.
      destruct (buildWhere d q); [discriminate | reflexivity | reflexivity].
    + intros w1 a1 Hpre.
      exact (buildWhere_stops d q pre post f _ w1 a1 Hq Hpre He).
  - intros Hx w1 w2 w3 a1 a2 a3 Hpre Hpost Hanc.
    split; intros Hop; rewrite Hop in Hf; simpl in Hf;
      rewrite inClause_nonempty in Hf by exact Hx;
      exact (buildWhere_at d q pre post f _ _ w1 w2 w3 a1 a2 a3
               Hq Hpre Hf Hpost Hanc).
Qed.


End FilterClaims.

(** ** SELECT statements *)

Section SelectFacts.

Context {pkg : Package}.
Variable d : Dialect.

(** Every filter contributes exactly one clause. *)
Lemma filtersLoop_length (fs : list Filter) (w : list string)
  (a : list Value) :
  filtersLoop d fs [] [] = Ok (w, a) -> length w = length fs.
Proof.
  revert w a.
  induction fs as [|f r IH]; intros w a H; simpl in H.
  - now injection H as <- <-.
  - destruct (filterClause d f) as [[w0 a0]| |]; simpl in H; try discriminate.
    rewrite filtersLoop_acc in H.
    destruct (filtersLoop d r [] []) as [[w' a']| |] eqn:Hr; simpl in H;
      try discriminate.
    injection H as <- <-. simpl. now rewrite (IH w' a' eq_refl).
Qed.

(** Every ancestor constraint contributes exactly one clause. *)
Lemma ancestorsLoop_length (aas : list group) (w : list string)
  (a : list Value) :
  ancestorsLoop d aas [] [] = Ok (w, a) -> length w = length aas.
Proof.
  revert w a.
  induction aas as [|aa r IH]; intros w a H; simpl in H.
  - now injection H as <- <-.
  - destruct (isGroup aa).
    + destruct (groupLoop d (data aa) "(" []) as [[b a0]| |]; simpl in H;
        try discriminate.
      destruct (GoStr.Truncate b (GoStr.Len b - 4)) as [b'| |]; simpl in H;
        try discriminate.
      rewrite ancestorsLoop_acc in H.
      destruct (ancestorsLoop d r [] []) as [[w' a']| |] eqn:Hr; simpl in H;
        try discriminate.
      injection H as <- <-. simpl. now rewrite (IH w' a' eq_refl).
    + destruct (data aa) as [|x xs]; [discriminate |].
      destruct (assertKey x) as [k| |]; simpl in H; try discriminate.
      rewrite ancestorsLoop_acc in H.
      destruct (ancestorsLoop d r [] []) as [[w' a']| |] eqn:Hr; simpl in H;
        try discriminate.
      injection H as <- <-. simpl. now rewrite (IH w' a' eq_refl).
Qed.

Lemma isZero_whereText (ws : list string) (a : list Value) :
  isZero (mkStmt (whereText ws) a) = match ws with [] => true | _ => false end.
Proof.
  destruct ws as [|w r]; [reflexivity |].
  unfold isZero, whereText, GoStr.Len.
  cbn [length Nat.ltb Nat.leb query].
  rewrite str_length_app. cbn [String.length].
  destruct (0 <? Z.of_nat (7 + String.length (GoStr.Join (w :: r) " AND ")))%Z
    eqn:E; [reflexivity | apply Z.ltb_ge in E; lia].
Qed.

(** [buildStmt] without leading arguments, in terms of the two loops. *)
Lemma buildStmt_loops (q : scope) (w1 w3 : list string) (a1 a3 : list Value) :
  filtersLoop d (filters q) [] [] = Ok (w1, a1) ->
  ancestorsLoop d (ancestors q) [] [] = Ok (w3, a3) ->
  buildStmt d q []
  = Ok (mkStmt (whereText (List.app w1 w3) ++ Raw (buildOrder d q)
                ++ Raw (buildLimitOffset q))
               (List.app a1 a3)).
Proof.
  intros Hf Ha. unfold buildStmt.
  rewrite (buildWhere_loops d q w1 w3 a1 a3 Hf Ha). simpl bind.
  rewrite isZero_whereText.
  destruct (List.app w1 w3) as [|w r] eqn:E; [| reflexivity].
  apply app_eq_nil in E as [-> ->].
  pose proof (filtersLoop_length _ _ _ Hf) as Lf.
  pose proof (ancestorsLoop_length _ _ _ Ha) as La.
  destruct (filters q); [| discriminate].
  destruct (ancestors q); [| discriminate].
  simpl in Hf, Ha. injection Hf as <-. injection Ha as <-.
  reflexivity.
Qed.

End SelectFacts.

Section SelectClaims.

Context {pkg : Package}.
Variable d : Dialect.

(** The clause of the implicit soft-delete filter. *)
Lemma softDeleteFilter_clause :
  switchValue d softDeleteFilter = Ok VNil ->
  keyFieldName <> softDeleteColumn ->
  filterClause d softDeleteFilter
  = Ok (Quote d softDeleteColumn ++ " IS NULL", []).
Proof.
  intros Hv Hk.
  rewrite (filterClause_switch d softDeleteFilter VNil eq_refl Hv).
  unfold columnOf. cbn [field softDeleteFilter operator operatorClause].
  replace (softDeleteColumn =? keyFieldName) with false.
  - reflexivity.
  - symmetry. apply String.eqb_neq. congruence.
Qed.

(** [getStmt] in terms of the two loops over the scope as the caller
    built it. *)
Lemma getStmt_loops (q : scope) (e : entity) (w1 w3 : list string)
  (a1 a3 : list Value) :
  filtersLoop d (filters q) [] [] = Ok (w1, a1) ->
  ancestorsLoop d (ancestors q) [] [] = Ok (w3, a3) ->
  filterClause d softDeleteFilter
  = Ok (Quote d softDeleteColumn ++ " IS NULL", []) ->
  getStmt d q e
  = Ok (mkStmt
          (Raw (buildSelect d q) ++ " FROM " ++ GetTable d (Name e)
           ++ whereText
                (List.app w1
                   (List.app
                      (if negb (noScope q) && hasSoftDelete e
                       then [Quote d softDeleteColumn ++ " IS NULL"]
                       else [])
                      w3))
           ++ Raw (buildOrder d q) ++ Raw (buildLimitOffset q)
           ++ lockClause (lockMode q) ++ ";")
          (List.app a1 a3)).
Proof.
  intros Hf Ha Hsd. unfold getStmt.
  destruct (negb (noScope q) && hasSoftDelete e).
  - pose proof (filtersLoop_app d (filters q) [softDeleteFilter] w1 _ a1 _ Hf
                  (filtersLoop_cons d softDeleteFilter [] _ _ [] []
                     Hsd eq_refl)) as Hall.
    rewrite (buildStmt_loops d
               (withFilters q (List.app (filters q) [softDeleteFilter]))
               _ w3 _ a3 Hall Ha).
    simpl bind. unfold Raw, Args. cbn [query args].
    rewrite !app_nil_r, <- !app_assoc, !str_app_assoc. reflexivity.
  - rewrite (buildStmt_loops d q w1 w3 a1 a3 Hf Ha).
    simpl bind. unfold Raw, Args. cbn [query args].
    rewrite !str_app_assoc. reflexivity.
Qed.

(** C4. [getStmt] appends the implicit filter [soft-delete column IS NULL]
    to the filters of the scope exactly when the entity declares a
    soft-delete column and the scope has not disabled scoping: then the
    clause follows the clauses of the scope's own filters in the WHERE
    clause and adds no argument; otherwise the WHERE clause is that of
    the scope alone. *)
Theorem getStmt_soft_delete_scope
  (q : scope) (e : entity) (w1 w3 : list string) (a1 a3 : list Value) :
  filtersLoop d (filters q) [] [] = Ok (w1, a1) ->
  ancestorsLoop d (ancestors q) [] [] = Ok (w3, a3) ->
  switchValue d softDeleteFilter = Ok VNil ->
  keyFieldName <> softDeleteColumn ->
  (hasSoftDelete e = true -> noScope q = false ->
   getStmt d q e
   = Ok (mkStmt
           (Raw (buildSelect d q) ++ " FROM " ++ GetTable d (Name e)
            ++ " WHERE "
            ++ GoStr.Join
                 (List.app w1 ((Quote d softDeleteColumn ++ " IS NULL") :: w3))
                 " AND "
            ++ Raw (buildOrder d q) ++ Raw (buildLimitOffset q)
            ++ lockClause (lockMode q) ++ ";")
           (List.app a1 a3)))
  /\ (hasSoftDelete e = false \/ noScope q = true ->
      getStmt d q e
      = Ok (mkStmt
              (Raw (buildSelect d q) ++ " FROM " ++ GetTable d (Name e)
               ++ whereText (List.app w1 w3)
               ++ Raw (buildOrder d q) ++ Raw (buildLimitOffset q)
               ++ lockClause (lockMode q) ++ ";")
              (List.app a1 a3))).
Proof.
  intros Hf Ha Hv Hk.
  pose proof (getStmt_loops q e w1 w3 a1 a3 Hf Ha
                (softDeleteFilter_clause Hv Hk)) as H.
  split.
  - intros Hs Hn. rewrite Hs, Hn in H. cbn [negb andb List.app] in H.
    rewrite H. f_equal. f_equal. f_equal. f_equal.
    unfold whereText. destruct w1; simpl; rewrite ?str_app_assoc; reflexivity.
  - intros Hc. rewrite H.
    replace (negb (noScope q) && hasSoftDelete e) with false; [reflexivity |].
    destruct Hc as [-> | ->]; [now rewrite andb_false_r | reflexivity].
Qed.

End SelectClaims.

Section ComposeClaims.

Context {pkg : Package}.
Variable d : Dialect.

Lemma buildWhere_shape (q : scope) (st : Stmt) :
  buildWhere d q = Ok st ->
  exists ws : list string,
    query st = whereText ws
    /\ length ws = (length (filters q) + length (ancestors q))%nat.
Proof.
  unfold buildWhere. intros H.
  destruct (filtersLoop d (filters q) [] []) as [[w1 a1]| |] eqn:Hf;
    simpl in H; try discriminate.
  rewrite ancestorsLoop_acc in H.
  destruct (ancestorsLoop d (ancestors q) [] []) as [[w3 a3]| |] eqn:Ha;
    simpl in H; try discriminate.
  injection H as <-. exists (List.app w1 w3). split; [reflexivity |].
  rewrite length_app.
  now rewrite (filtersLoop_length d _ _ _ Hf), (ancestorsLoop_length d _ _ _ Ha).
Qed.

Lemma buildStmt_shape (q : scope) (st : Stmt) :
  buildStmt d q [] = Ok st ->
  exists ws : list string,
    query st = whereText ws ++ Raw (buildOrder d q) ++ Raw (buildLimitOffset q)
    /\ length ws = (length (filters q) + length (ancestors q))%nat.
Proof.
  unfold buildStmt. intros H.
  destruct (buildWhere d q) as [w| |] eqn:Hw; simpl in H; try discriminate.
  destruct (buildWhere_shape q w Hw) as (ws & Hq & Hl).
  exists ws. split; [| exact Hl].
  destruct w as [wq wa]. simpl in Hq. subst wq.
  rewrite isZero_whereText in H.
  destruct ws; simpl in H; injection H as <-; reflexivity.
Qed.

(** C6, as the code has it.  The text of every compiled SELECT is the
    concatenation of its fragments in the order SELECT, FROM, WHERE,
    ORDER BY, LIMIT/OFFSET, lock clause, terminator.  A fragment that is
    left out is the empty text, and the WHERE and ORDER BY fragments that
    are present start with their own separator. *)
Theorem getStmt_fragment_order (q : scope) (e : entity) (s : Stmt) :
  getStmt d q e = Ok s ->
  exists ws : list string,
    query s
    = Raw (buildSelect d q) ++ " FROM " ++ GetTable d (Name e)
      ++ whereText ws ++ Raw (buildOrder d q) ++ Raw (buildLimitOffset q)
      ++ lockClause (lockMode q) ++ ";"
    /\ length ws
       = (length (filters q)
          + (if negb (noScope q) && hasSoftDelete e then 1 else 0)
          + length (ancestors q))%nat
    /\ (ws = [] -> whereText ws = "")
    /\ (ws <> [] -> whereText ws = " WHERE " ++ GoStr.Join ws " AND ")
    /\ (orders q = [] -> Raw (buildOrder d q) = "")
    /\ (orders q <> [] ->
        Raw (buildOrder d q)
        = " ORDER BY " ++ GoStr.Join (map (orderTerm d) (orders q)) ",")
    /\ ((limit q <= 0)%Z -> (offset q <= 0)%Z ->
        Raw (buildLimitOffset q) = "")
    /\ (lockMode q = NoLock -> lockClause (lockMode q) = "").
Proof.
  intros H. unfold getStmt in H.
  set (q' := if negb (noScope q) && hasSoftDelete e
             then withFilters q (List.app (filters q) [softDeleteFilter])
             else q) in H.
  assert (Hsame : orders q' = orders q /\ limit q' = limit q
                  /\ offset q' = offset q /\ lockMode q' = lockMode q
                  /\ ancestors q' = ancestors q).
  { unfold q'. destruct (negb (noScope q) && hasSoftDelete e);
      repeat split; reflexivity. }
  destruct Hsame as (Ho & Hl & Hoff & Hlk & Hanc).
  destruct (buildStmt d q' []) as [st| |] eqn:Hst; simpl in H;
    try discriminate.
  destruct (buildStmt_shape q' st Hst) as (ws & Hq & Hlen).
  injection H as <-. exists ws.
  split; [| split; [| repeat split]].
  - unfold Raw in *. cbn [query]. rewrite Hq.
    unfold buildOrder, buildLimitOffset. rewrite Ho, Hl, Hoff, Hlk.
    rewrite !str_app_assoc. reflexivity.
  - rewrite Hlen, Hanc. unfold q'.
    destruct (negb (noScope q) && hasSoftDelete e); simpl.
    + rewrite length_app. simpl. lia.
    + lia.
  - intros ->. reflexivity.
  - intros Hne. destruct ws; [congruence | reflexivity].
  - intros Hno. unfold buildOrder. now rewrite Hno.
  - intros Hne. unfold buildOrder.
    destruct (orders q); [congruence | reflexivity].
  - intros Hlim Hof. unfold buildLimitOffset, Raw. cbn [query].
    destruct (0 <? limit q)%Z eqn:E1; [apply Z.ltb_lt in E1; lia |].
    destruct (0 <? offset q)%Z eqn:E2; [apply Z.ltb_lt in E2; lia |].
    reflexivity.
  - intros ->. reflexivity.
Qed.

End ComposeClaims.

(** ** Deleting a set of rows *)

Section DeleteClaims.

Context {pkg : Package}.
Variable d : Dialect.

Lemma placeholders_as_Join (n : nat) :
  variable ++ GoStr.Repeat ("," ++ variable) n
  = GoStr.Join (repeat variable (S n)) ",".
Proof.
  induction n as [|n IH].
  - reflexivity.
  - change (repeat variable (S (S n)))
      with (variable :: variable :: repeat variable n).
    rewrite Join_cons.
    change (variable :: repeat variable n) with (repeat variable (S n)).
    rewrite <- IH. reflexivity.
Qed.

(** After the first row every complete key writes [,?]. *)
Lemma keysLoop_rest (e : entity) (ks : list Key) :
  forall (rows : list Row) (i : nat) (buf : string) (args : list Value),
    map row_key rows = map (fun k => VKey (Some k)) ks ->
    forallb (fun k => negb (Incomplete k)) ks = true ->
    keysLoop e (S i) rows buf args
    = Ok (buf ++ GoStr.Repeat ("," ++ variable) (length ks),
          List.app args (map (fun k => VString (stringPk (Some k))) ks)).
Proof.
  induction ks as [|k ks IH]; intros rows i buf args Hrows Hall.
  - destruct rows; [| discriminate]. simpl.
    now rewrite str_app_nil_r, app_nil_r.
  - destruct rows as [|f rows]; [discriminate |].
    simpl in Hrows. injection Hrows as Hk Hrows.
    simpl in Hall. apply andb_prop in Hall as [Hc Hall].
    apply negb_true_iff in Hc.
    cbn [keysLoop]. rewrite Hk, Hc. cbn [Nat.eqb negb].
    rewrite (IH rows (S i) _ _ Hrows Hall).
    cbn [length GoStr.Repeat map].
    rewrite !str_app_assoc, <- app_assoc. reflexivity.
Qed.

(** [concatKeys] on rows that all hold complete keys. *)
Lemma concatKeys_complete (e : entity) (ks : list Key) :
  map row_key (slice e) = map (fun k => VKey (Some k)) ks ->
  forallb (fun k => negb (Incomplete k)) ks = true ->
  concatKeys e
  = Ok (mkStmt (placeholderList (length ks))
               (map (fun k => VString (stringPk (Some k))) ks)).
Proof.
  intros Hrows Hall. unfold concatKeys, placeholderList.
  destruct ks as [|k ks].
  - destruct (slice e); [reflexivity | discriminate].
  - destruct (slice e) as [|f rows]; [discriminate |].
    simpl in Hrows. injection Hrows as Hk Hrows.
    simpl in Hall. apply andb_prop in Hall as [Hc Hall].
    apply negb_true_iff in Hc.
    cbn [keysLoop]. rewrite Hk, Hc. cbn [Nat.eqb negb].
    rewrite (keysLoop_rest e ks rows 0 _ _ Hrows Hall).
    simpl bind. cbn [length].
    rewrite <- placeholders_as_Join, !str_app_assoc. reflexivity.
Qed.

(** The loop stops at the first incomplete key. *)
Lemma keysLoop_incomplete (e : entity) (ks : list Key) :
  forall (rows : list Row) (i : nat) (buf : string) (args : list Value),
    map row_key rows = map (fun k => VKey (Some k)) ks ->
    existsb Incomplete ks = true ->
    keysLoop e i rows buf args
    = Err ("goloquent: entity " ++ GoStr.quoted (typeOfName e)
           ++ " has incomplete key").
Proof.
  induction ks as [|k ks IH]; intros rows i buf args Hrows Hex.
  - discriminate.
  - destruct rows as [|f rows]; [discriminate |].
    simpl in Hrows. injection Hrows as Hk Hrows.
    cbn [keysLoop]. rewrite Hk.
    destruct (Incomplete k) eqn:Hc; [reflexivity |].
    simpl in Hex. rewrite Hc in Hex. simpl in Hex.
    exact (IH rows (S i) _ _ Hrows Hex).
Qed.

(** Deleting the rows of an entity that declares a soft-delete column,
    each row holding a key that is not nil: when every key is complete the
    statement is an UPDATE that sets the soft-delete column to the
    current timestamp under [key IN (?,...,?)] with one placeholder per
    key and the arguments [now, key1, ..., keyN], and it is no DELETE;
    when some key is incomplete the compilation fails with the
    incomplete-key error and there is no statement. *)
Theorem deleteStmt_soft_delete (now : string) (e : entity) (ks : list Key) :
  hasSoftDelete e = true ->
  map row_key (slice e) = map (fun k => VKey (Some k)) ks ->
  (forallb (fun k => negb (Incomplete k)) ks = true ->
   deleteStmt d now e true
   = Ok (mkStmt
           ("UPDATE " ++ GetTable d (Name e) ++ " SET "
            ++ Quote d softDeleteColumn ++ " = ? WHERE " ++ Quote d pkColumn
            ++ " IN " ++ placeholderList (length ks) ++ ";")
           (VString now :: map (fun k => VString (stringPk (Some k))) ks))
   /\ (forall s, deleteStmt d now e true = Ok s ->
                 prefix "DELETE" (query s) = false))
  /\ (existsb Incomplete ks = true ->
      deleteStmt d now e true
      = Err ("goloquent: entity " ++ GoStr.quoted (typeOfName e)
             ++ " has incomplete key")).
Proof.
  intros Hsoft Hrows.
  unfold deleteStmt, softDeleteStmt. rewrite Hsoft. cbn [andb].
  split.
  - intros Hall.
    rewrite (concatKeys_complete e ks Hrows Hall). cbn [bind].
    split.
    + unfold Raw, Args. cbn [query args List.app].
      rewrite !str_app_assoc. reflexivity.
    + intros s Hs. injection Hs as <-. reflexivity.
  - intros Hex. unfold concatKeys.
    now rewrite (keysLoop_incomplete e ks _ 0 _ _ Hrows Hex).
Qed.

End DeleteClaims.

(** ** Bulk update from a struct *)

Section UpdateClaims.

Context {pkg : Package}.
Variable d : Dialect.

(** Writing every element followed by [sep] is joining by [sep] and
    writing [sep] once more. *)
Lemma writes_as_Join (l : list string) (sep : string) :
  l <> [] ->
  fold_right String.append "" (map (fun x => x ++ sep) l)
  = GoStr.Join l sep ++ sep.
Proof.
  induction l as [|x r IH]; intros Hne; [congruence |].
  destruct r as [|y r].
  - simpl. now rewrite str_app_nil_r.
  - change (fold_right String.append "" (map (fun x => x ++ sep) (x :: y :: r)))
      with ((x ++ sep)
            ++ fold_right String.append "" (map (fun x => x ++ sep) (y :: r))).
    rewrite IH by discriminate.
    rewrite Join_cons, !str_app_assoc. reflexivity.
Qed.



End UpdateClaims.

(** ** Transactions *)

Section TransactionClaims.

Variable drv : Sql.Driver.
Variable cb : TransactionHandler.

(** C2, as the code has it.  With a transaction begun: when the callback
    returns an error the transaction is rolled back and that error is
    returned; when the callback panics the transaction is rolled back,
    the panic is recovered and [runInTransaction] returns normally with a
    nil error; when the callback returns nil the transaction is committed
    and the result of the commit is returned.  The driver sees a commit
    if and only if the callback returned nil. *)
Theorem runInTransaction_outcomes :
  let db := mkDB (SqlTx (Sql.mkTx false [] drv)) in
  let run := runInTransaction (mkDB (SqlDB drv)) cb in
  Sql.beginErr drv = None ->
  (forall err, cb db = Return (Some err) ->
     run = (Return (Some err),
            Some (Sql.mkTx true [Sql.DriverRollback] drv)))
  /\ (forall v, cb db = Panics v ->
        run = (Return None, Some (Sql.mkTx true [Sql.DriverRollback] drv)))
  /\ (cb db = Return None ->
        run = (Return (Sql.commitErr drv),
               Some (Sql.mkTx true [Sql.DriverCommit] drv)))
  /\ (forall tx', snd run = Some tx' ->
        (List.In Sql.DriverCommit (Sql.calls tx') <-> cb db = Return None)).
Proof.
  intros db run Hb.
  assert (Hrun : run
    = match cb db with
      | Return (Some err) =>
          (Return (Some err), Some (Sql.mkTx true [Sql.DriverRollback] drv))
      | Return None =>
          (Return (Sql.commitErr drv),
           Some (Sql.mkTx true [Sql.DriverCommit] drv))
      | Panics v =>
          (Return None, Some (Sql.mkTx true [Sql.DriverRollback] drv))
      end).
  { unfold run, runInTransaction, Sql.Begin. cbn [client_sqlCommon].
    rewrite Hb. fold db.
    destruct (cb db) as [[err|]|v]; reflexivity. }
  split; [| split; [| split]].
  - intros err H. now rewrite Hrun, H.
  - intros v H. now rewrite Hrun, H.
  - intros H. now rewrite Hrun, H.
  - intros tx' Htx. rewrite Hrun in Htx.
    destruct (cb db) as [[err|]|v]; simpl in Htx; injection Htx as <-;
      simpl; split; intros Hc;
      try discriminate; try reflexivity; try (now left);
      destruct Hc as [Hc | []]; discriminate.
Qed.

End TransactionClaims.

(** ** Pagination *)

(** C1, on the code.  Whatever the cursor, [paginate] returns a nil error
    and runs no statement: it never answers with the invalid-cursor
    error. *)
Theorem paginate_accepts_any_cursor (q : scope) (p : Pagination)
  (model : entity) :
  paginate q p model = (None, [])
  /\ fst (paginate q p model) <> Some ErrInvalidCursor.
Proof.
  split; [reflexivity | discriminate].
Qed.

(** ** Rendering a statement *)

Section RenderFacts.

Import Render.

Variable render : Value -> string.

Lemma splitByte_cons (c : ascii) (s : string) :
  exists h t, splitByte c s = h :: t.
Proof.
  induction s as [|x r IH]; simpl.
  - eauto.
  - destruct (Ascii.eqb x c); [eauto |].
    destruct IH as (h & t & ->). eauto.
Qed.

(** Splitting at the placeholders gives one segment more than there are
    placeholders. *)
Lemma splitByte_length (q : string) :
  length (splitByte "?" q) = S (placeholders q).
Proof.
  induction q as [|x r IH]; simpl; [reflexivity |].
  destruct (Ascii.eqb x "?"); simpl; [now rewrite IH |].
  destruct (splitByte_cons "?" r) as (h & t & E).
  rewrite E in IH |- *. exact IH.
Qed.

Lemma weave_split (q : string) :
  forall vals : list Value,
    placeholders q <= length vals ->
    weave render (splitByte "?" q) vals = interpolate render q vals.
Proof.
  induction q as [|x r IH]; intros vals Hn; simpl in *.
  - reflexivity.
  - destruct (Ascii.eqb x "?"); simpl in Hn.
    + destruct vals as [|v vs]; [inversion Hn |].
      destruct (splitByte_cons "?" r) as (h & t & E).
      rewrite <- (IH vs) by (simpl in Hn; lia).
      rewrite E. reflexivity.
    + rewrite <- (IH vals Hn).
      destruct (splitByte_cons "?" r) as (h & t & E). rewrite E.
      destruct t as [|t1 t']; [reflexivity |].
      destruct vals; reflexivity.
Qed.

Lemma stringLoop_weaves (vals : list Value) :
  forall (segs pre : list string) (buf : string),
    length segs = S (length vals) ->
    (x <- stringLoop (Some render) (List.app pre segs) (length pre) vals buf ;;
     Ok (x ++ last (List.app pre segs) ""))
    = Ok (buf ++ weave render segs vals).
Proof.
  induction vals as [|v vs IH]; intros segs pre buf Hlen.
  - destruct segs as [|s [|s2 rest]]; try discriminate.
    simpl. now rewrite last_last.
  - destruct segs as [|s [|s2 rest]]; try discriminate.
    cbn [stringLoop]. rewrite nth_error_app2 by lia.
    rewrite Nat.sub_diag. cbn [nth_error].
    replace (List.app pre (s :: s2 :: rest))
      with (List.app (List.app pre [s]) (s2 :: rest))
      by (now rewrite <- app_assoc).
    replace (S (length pre)) with (length (List.app pre [s]))
      by (rewrite length_app; simpl; lia).
    rewrite (IH (s2 :: rest) (List.app pre [s])) by (simpl in *; lia).
    cbn [weave]. now rewrite !str_app_assoc.
Qed.


(** X1. When a statement holds as many arguments as its text holds
    placeholders, [String] returns the text with each placeholder
    replaced, in order, by the rendering of the matching argument. *)
Theorem String_interpolates (s : Stmt) :
  placeholders (query s) = length (args s) ->
  String_ (Some render) s = Ok (interpolate render (query s) (args s)).
Proof.
  intros Hn. unfold String_.
  pose proof (stringLoop_weaves (args s) (splitByte "?" (query s)) [] "")
    as H.
  cbn [List.app length] in H.
  rewrite H by (now rewrite splitByte_length, Hn).
  rewrite weave_split by lia. reflexivity.
Qed.


End RenderFacts.

(** ** Quoting of projected names *)

Section QuoteFacts.

Context {pkg : Package}.
Variable d : Dialect.

Lemma rgxRun_alnum (v : string) :
  allChars isAlnum v = true -> rgxRun RSeg1 v = true.
Proof.
  induction v as [|c r IH]; simpl; intros H; [reflexivity |].
  apply andb_prop in H as [Hc Hr].
  unfold isHead. rewrite Hc, orb_true_r. exact (IH Hr).
Qed.

Lemma rgxRun_foreign (v : string) :
  someChar foreignChar v = true -> forall st, rgxRun st v = false.
Proof.
  induction v as [|c r IH]; simpl; intros H st; [discriminate |].
  destruct (foreignChar c) eqn:Hc.
  - unfold foreignChar in Hc.
    apply andb_prop in Hc as [Hc Hdot]. apply andb_prop in Hc as [Hd Ha].
    apply negb_true_iff in Hd, Ha, Hdot.
    unfold isHead. rewrite Hd, Ha, Hdot. destruct st; reflexivity.
  - simpl in H. specialize (IH H).
    destruct st;
      repeat match goal with
             | |- context [if ?b then _ else _] => destruct b
             end; auto.
Qed.

(** X3. [quoteIfNecessary] quotes a non-empty name made of letters and
    digits, and returns unchanged any text that holds a byte other than a
    letter, a digit, a dollar or a dot (a star, a blank, a bracket, a
    quote). *)
Theorem quoteIfNecessary_cases (v : string) :
  (v <> "" -> allChars isAlnum v = true -> quoteIfNecessary d v = Quote d v)
  /\ (someChar foreignChar v = true -> quoteIfNecessary d v = v).
Proof.
  unfold quoteIfNecessary. split.
  - intros Hne Hall. destruct v as [|c r]; [congruence |].
    simpl in Hall |- *. apply andb_prop in Hall as [Hc Hr].
    unfold isHead. rewrite Hc, orb_true_r. now rewrite (rgxRun_alnum r Hr).
  - intros H. now rewrite (rgxRun_foreign v H RStart).
Qed.

End QuoteFacts.

(** X4. Under the mysql dialect quoting is idempotent: a name that
    [quoteIfNecessary] has treated comes back unchanged from a second
    pass, so no name is quoted twice. *)
Theorem quoteIfNecessary_mysql_idempotent
  (getTable : string -> string)
  (filterJSON : Filter -> result (string * list Value)) (v : string) :
  let d := mysql getTable filterJSON in
  quoteIfNecessary d (quoteIfNecessary d v) = quoteIfNecessary d v.
Proof.
  intros d. unfold quoteIfNecessary.
  destruct (rgxRun RStart v) eqn:E.
  - reflexivity.
  - now rewrite E.
Qed.

(** ** Ancestor constraints *)

Section AncestorFacts.

Context {pkg : Package}.
Variable d : Dialect.

(** Dropping the last [ OR ] of a bracketed run of alternatives. *)
Lemma Truncate_alternatives (s : string) (n : nat) :
  GoStr.Truncate ("(" ++ GoStr.Repeat (s ++ " OR ") (S n))
    (GoStr.Len ("(" ++ GoStr.Repeat (s ++ " OR ") (S n)) - 4)
  = Ok ("(" ++ GoStr.Join (repeat s (S n)) " OR ").
Proof.
  rewrite Repeat_as_Join.
  change ("(" ++ GoStr.Join (repeat s (S n)) " OR " ++ " OR ")
    with (("(" ++ GoStr.Join (repeat s (S n)) " OR ") ++ " OR ").
  exact (Truncate_last_write _ " OR ").
Qed.

Lemma ancestorsLoop_app (pre rest : list group) :
  forall (w0 : list string) (a0 : list Value),
    ancestorsLoop d (List.app pre rest) w0 a0
    = '(w, a) <- ancestorsLoop d pre w0 a0 ;; ancestorsLoop d rest w a.
Proof.
  induction pre as [|aa r IH]; intros w0 a0; [reflexivity |].
  cbn [List.app ancestorsLoop].
  destruct (isGroup aa).
  - destruct (groupLoop d (data aa) "(" a0) as [[b a]| |]; simpl;
      try reflexivity.
    destruct (GoStr.Truncate b (GoStr.Len b - 4)) as [b'| |]; simpl;
      try reflexivity.
    apply IH.
  - destruct (data aa) as [|x xs]; [reflexivity |].
    destruct (assertKey x) as [k| |]; simpl; try reflexivity.
    apply IH.
Qed.

(** The inner loop on a list of keys. *)
Lemma groupLoop_keys (ks : list KeyPtr) :
  forall (buf : string) (args : list Value),
    groupLoop d (map VKey ks) buf args
    = Ok (buf ++ GoStr.Repeat ((Quote d pkColumn ++ " LIKE ?") ++ " OR ")
                              (length ks),
          List.app args (map ancestorPattern ks)).
Proof.
  induction ks as [|k r IH]; intros buf args; simpl.
  - now rewrite str_app_nil_r, app_nil_r.
  - rewrite IH. unfold variable.
    now rewrite <- app_assoc, !str_app_assoc.
Qed.

Lemma keysOf_keys (aa : group) (ks : list KeyPtr) :
  data aa = map VKey ks -> keysOf aa = ks.
Proof.
  unfold keysOf. intros ->.
  induction ks as [|k r IH]; simpl; [reflexivity | now rewrite IH].
Qed.

(** One ancestor constraint that holds keys. *)
Lemma ancestorsLoop_one (aa : group) (ks : list KeyPtr) :
  ks <> [] ->
  data aa = map VKey ks ->
  ancestorsLoop d [aa] [] [] = Ok ([ancestorClause d aa], ancestorArgs aa).
Proof.
  intros Hne Hd. unfold ancestorClause, ancestorArgs.
  rewrite (keysOf_keys aa ks Hd).
  cbn [ancestorsLoop]. rewrite Hd.
  destruct ks as [|k r]; [congruence |].
  destruct (isGroup aa).
  - rewrite groupLoop_keys. cbn [bind length].
    rewrite Truncate_alternatives. cbn [bind List.app].
    rewrite length_map. cbn [length].
    now rewrite !str_app_assoc.
  - reflexivity.
Qed.

(** X6. When every ancestor constraint of a scope holds keys, each yields
    one clause on the key column, a single [LIKE] or the bracketed [OR]
    of one [LIKE] per key of a group, and one pattern [%key/%] per
    placeholder; the clauses follow those of the filters. *)
Theorem buildWhere_ancestors (q : scope) (w1 : list string)
  (a1 : list Value) :
  filtersLoop d (filters q) [] [] = Ok (w1, a1) ->
  (forall aa, List.In aa (ancestors q) ->
     exists ks, ks <> [] /\ data aa = map VKey ks) ->
  buildWhere d q
  = Ok (mkStmt
          (whereText (List.app w1 (map (ancestorClause d) (ancestors q))))
          (List.app a1 (flat_map ancestorArgs (ancestors q)))).
Proof.
  intros Hf Hall.
  apply (buildWhere_loops d q _ _ _ _ Hf).
  induction (ancestors q) as [|aa r IH]; [reflexivity |].
  change (aa :: r) with (List.app [aa] r).
  rewrite ancestorsLoop_app.
  destruct (Hall aa (or_introl eq_refl)) as (ks & Hne & Hd).
  rewrite (ancestorsLoop_one aa ks Hne Hd). cbn [bind].
  rewrite ancestorsLoop_acc, IH
    by (intros x Hx; apply Hall; now right).
  reflexivity.
Qed.

(** X7. An ancestor constraint that holds no key makes [buildWhere]
    panic, after filters and ancestors that compile: a group on the
    truncation of its empty bracket, a single ancestor on its first
    element. *)
Theorem buildWhere_empty_ancestor_panics (q : scope)
  (pre post : list group) (aa : group) (w1 w3 : list string)
  (a1 a3 : list Value) :
  ancestors q = List.app pre (aa :: post) ->
  data aa = [] ->
  filtersLoop d (filters q) [] [] = Ok (w1, a1) ->
  ancestorsLoop d pre [] [] = Ok (w3, a3) ->
  buildWhere d q
  = Panic (if isGroup aa
           then "bytes.Buffer: truncation out of range"
           else "runtime error: index out of range [0] with length 0").
Proof.
  intros Hq Hd Hf Hpre. unfold buildWhere.
  rewrite Hf. cbn [bind]. rewrite Hq, ancestorsLoop_app.
  rewrite ancestorsLoop_acc, Hpre. cbn [bind ancestorsLoop].
  rewrite Hd. destruct (isGroup aa); reflexivity.
Qed.

End AncestorFacts.

(** ** Placeholders and arguments *)

Section AlignmentFacts.

Import Render.

Context {pkg : Package}.
Variable d : Dialect.

Lemma placeholders_app (a b : string) :
  placeholders (a ++ b) = placeholders a + placeholders b.
Proof.
  induction a as [|x a IH]; simpl; [reflexivity | rewrite IH; lia].
Qed.

Lemma placeholders_Join_repeat (s sep : string) (n : nat) :
  placeholders (GoStr.Join (repeat s (S n)) sep)
  = S n * placeholders s + n * placeholders sep.
Proof.
  induction n as [|n IH].
  - simpl. lia.
  - change (repeat s (S (S n))) with (s :: s :: repeat s n).
    rewrite Join_cons.
    change (s :: repeat s n) with (repeat s (S n)).
    rewrite !placeholders_app, IH. lia.
Qed.

Lemma placeholders_Join (l : list string) (sep : string) :
  placeholders sep = 0 ->
  placeholders (GoStr.Join l sep) = list_sum (map placeholders l).
Proof.
  intros Hsep.
  induction l as [|x r IH]; [reflexivity |].
  destruct r as [|y r].
  - simpl. lia.
  - rewrite Join_cons, !placeholders_app, Hsep, IH. simpl. lia.
Qed.

Lemma placeholders_placeholderList (n : nat) :
  placeholders (placeholderList n) = n.
Proof.
  unfold placeholderList. destruct n as [|n]; [reflexivity |].
  rewrite !placeholders_app, placeholders_Join_repeat. simpl. lia.
Qed.

Lemma placeholders_whereText (ws : list string) :
  placeholders (whereText ws) = list_sum (map placeholders ws).
Proof.
  destruct ws as [|w r]; [reflexivity |].
  rewrite whereText_cons, placeholders_app.
  now rewrite placeholders_Join.
Qed.

Lemma inClause_text_count (name o : string) (n : nat) :
  placeholders name = 0 ->
  placeholders o = 0 ->
  placeholders (name ++ " " ++ o ++ " " ++ placeholderList n) = n.
Proof.
  intros Hn Ho.
  remember (placeholderList n) as pl eqn:Hpl.
  rewrite 4 placeholders_app, Hn, Ho. subst pl.
  now rewrite placeholders_placeholderList.
Qed.

Lemma anyLike_text_count (name : string) (n : nat) :
  placeholders name = 0 ->
  placeholders
    ("(" ++ GoStr.Join (repeat (name ++ " LIKE ?") (S n)) " OR " ++ ")")
  = S n.
Proof.
  intros Hn.
  rewrite 2 placeholders_app, placeholders_Join_repeat, placeholders_app, Hn.
  simpl. lia.
Qed.

(** Every branch of the operator switch writes as many placeholders as
    it appends arguments. *)
Lemma operatorClause_aligned (op : Operator) (name : string) (v : Value)
  (w : string) (a : list Value) :
  placeholders name = 0 ->
  operatorClause op name v = Ok (w, a) ->
  placeholders w = length a.
Proof.
  intros Hn H.
  assert (Hplain : forall o, placeholders o = 0 ->
            placeholders (sprintf3 name o variable) = 1).
  { intros o Ho. unfold sprintf3. rewrite 4 placeholders_app, Hn, Ho.
    reflexivity. }
  assert (Hnull : forall t, placeholders t = 0 ->
            placeholders (name ++ t) = 0).
  { intros t Ht. now rewrite placeholders_app, Hn, Ht. }
  assert (Hin : forall o oname, placeholders o = 0 ->
            inClause name o oname v = Ok (w, a) ->
            placeholders w = length a).
  { intros o oname Ho Hc.
    destruct (asSlice v) as [|x r] eqn:E.
    - rewrite (inClause_empty _ _ _ _ E) in Hc. discriminate.
    - rewrite inClause_nonempty in Hc by (rewrite E; discriminate).
      injection Hc as <- <-.
      exact (inClause_text_count name o _ Hn Ho). }
  destruct op; simpl in H;
    try (injection H as <- <-; apply Hplain; reflexivity);
    try (apply (Hin _ _ eq_refl H)).
  - destruct v; injection H as <- <-;
      first [apply Hplain; reflexivity | apply Hnull; reflexivity].
  - destruct v; injection H as <- <-;
      first [apply Hplain; reflexivity | apply Hnull; reflexivity].
  - destruct (asSlice v) as [|x r] eqn:E.
    + rewrite (anyLikeClause_empty _ _ E) in H. discriminate.
    + rewrite anyLikeClause_nonempty in H by (rewrite E; discriminate).
      rewrite E in H. injection H as <- <-.
      exact (anyLike_text_count name (length r) Hn).
  - apply (Hin "IN" "In" eq_refl). exact H.
  - apply (Hin "NOT IN" "NotIn" eq_refl). exact H.
Qed.

Lemma filterClause_aligned (f : Filter) (w : string) (a : list Value) :
  (forall w' a', FilterJSON d f = Ok (w', a') -> placeholders w' = length a') ->
  placeholders (columnOf d f) = 0 ->
  filterClause d f = Ok (w, a) ->
  placeholders w = length a.
Proof.
  intros HJ Hn H. unfold filterClause in H.
  destruct (Filter_Interface f) as [v0| |]; simpl in H; try discriminate.
  destruct (isJSON f); [exact (HJ w a H) |].
  unfold keyFold in H. unfold columnOf in Hn.
  destruct ((field f =? keyFieldName) || (field f =? pkColumn)).
  - destruct (interfaceToKeyString (value f)) as [v'| |]; simpl in H;
      try discriminate.
    exact (operatorClause_aligned _ _ _ _ _ Hn H).
  - simpl in H. exact (operatorClause_aligned _ _ _ _ _ Hn H).
Qed.

Lemma filtersLoop_aligned (fs : list Filter) :
  (forall f w a, FilterJSON d f = Ok (w, a) -> placeholders w = length a) ->
  (forall f, List.In f fs -> placeholders (columnOf d f) = 0) ->
  forall ws a,
    filtersLoop d fs [] [] = Ok (ws, a) ->
    list_sum (map placeholders ws) = length a.
Proof.
  intros HJ. induction fs as [|f r IH]; intros Hn ws a H.
  - simpl in H. now injection H as <- <-.
  - simpl in H.
    destruct (filterClause d f) as [[w0 a0]| |] eqn:Hf; simpl in H;
      try discriminate.
    rewrite filtersLoop_acc in H.
    destruct (filtersLoop d r [] []) as [[w' a']| |] eqn:Hr; simpl in H;
      try discriminate.
    injection H as <- <-.
    pose proof (IH (fun x Hx => Hn x (or_intror Hx)) w' a' eq_refl) as IHr.
    pose proof (filterClause_aligned f w0 a0 (HJ f)
                  (Hn f (or_introl eq_refl)) Hf) as Hw.
    rewrite ?length_app. unfold list_sum in *. simpl. lia.
Qed.

Lemma groupLoop_counts (xs : list Value) :
  forall (buf : string) (args : list Value) (b : string) (a : list Value),
    groupLoop d xs buf args = Ok (b, a) ->
    b = buf ++ GoStr.Repeat ((Quote d pkColumn ++ " LIKE ?") ++ " OR ")
                            (length xs)
    /\ length a = length args + length xs.
Proof.
  induction xs as [|x r IH]; intros buf args b a H; simpl in H.
  - injection H as <- <-. simpl. now rewrite str_app_nil_r.
  - destruct (assertKey x) as [k| |]; simpl in H; try discriminate.
    destruct (IH _ _ _ _ H) as [-> Hl]. split.
    + unfold variable. cbn [length GoStr.Repeat].
      now rewrite !str_app_assoc.
    + rewrite Hl, length_app. simpl. lia.
Qed.

Lemma ancestorsLoop_aligned (aas : list group) :
  placeholders (Quote d pkColumn) = 0 ->
  forall ws a,
    ancestorsLoop d aas [] [] = Ok (ws, a) ->
    list_sum (map placeholders ws) = length a.
Proof.
  intros Hpk. induction aas as [|aa r IH]; intros ws a H.
  - simpl in H. now injection H as <- <-.
  - cbn [ancestorsLoop] in H. destruct (isGroup aa).
    + destruct (groupLoop d (data aa) "(" []) as [[b a0]| |] eqn:Hg;
        simpl in H; try discriminate.
      destruct (groupLoop_counts _ _ _ _ _ Hg) as [-> Hl].
      destruct (data aa) as [|x xs].
      * simpl in H. discriminate.
      * cbn [length] in H, Hl. rewrite Truncate_alternatives in H.
        cbn [bind] in H. rewrite ancestorsLoop_acc in H.
        destruct (ancestorsLoop d r [] []) as [[w' a']| |] eqn:Hr;
          simpl in H; try discriminate.
        injection H as <- <-.
        pose proof (IH w' a' eq_refl) as IHr.
        pose proof (anyLike_text_count (Quote d pkColumn) (length xs) Hpk)
          as Hw.
        rewrite ?length_app. unfold list_sum in *. simpl in *. lia.
    + destruct (data aa) as [|x xs]; [discriminate |].
      destruct (assertKey x) as [k| |]; simpl in H; try discriminate.
      rewrite ancestorsLoop_acc in H.
      destruct (ancestorsLoop d r [] []) as [[w' a']| |] eqn:Hr;
        simpl in H; try discriminate.
      injection H as <- <-.
      pose proof (IH w' a' eq_refl) as IHr.
      assert (Hw : placeholders (Quote d pkColumn ++ " LIKE ?") = 1)
        by (now rewrite placeholders_app, Hpk).
      rewrite ?length_app. unfold list_sum, variable in *. simpl in *. lia.
Qed.

(** X5. Every WHERE clause [buildWhere] returns holds exactly as many
    placeholders as the statement holds arguments, provided no quoted
    column name holds a question mark and the dialect's JSON filters
    keep the same count. *)
Theorem buildWhere_placeholders_match_args (q : scope) (s : Stmt) :
  (forall f w a, FilterJSON d f = Ok (w, a) -> placeholders w = length a) ->
  (forall f, List.In f (filters q) -> placeholders (columnOf d f) = 0) ->
  placeholders (Quote d pkColumn) = 0 ->
  buildWhere d q = Ok s ->
  placeholders (query s) = length (args s).
Proof.
  intros HJ Hn Hpk H. unfold buildWhere in H.
  destruct (filtersLoop d (filters q) [] []) as [[w1 a1]| |] eqn:Hf;
    simpl in H; try discriminate.
  rewrite ancestorsLoop_acc in H.
  destruct (ancestorsLoop d (ancestors q) [] []) as [[w3 a3]| |] eqn:Ha;
    simpl in H; try discriminate.
  injection H as <-. cbn [query args].
  rewrite placeholders_whereText, map_app, list_sum_app, length_app.
  rewrite (filtersLoop_aligned _ HJ Hn _ _ Hf).
  now rewrite (ancestorsLoop_aligned _ Hpk _ _ Ha).
Qed.

End AlignmentFacts.

(** ** Deleting rows: the other paths *)

Section DeleteFacts.

Context {pkg : Package}.
Variable d : Dialect.

(** X8. A hard delete, or the delete of an entity without a soft-delete
    column, of rows that all hold complete keys is a literal DELETE under
    [key IN (?,...,?)] whose arguments are the keys alone, in order. *)
Theorem deleteStmt_hard_delete (now : string) (e : entity) (ks : list Key)
  (isSoftDelete : bool) :
  isSoftDelete = false \/ hasSoftDelete e = false ->
  map row_key (slice e) = map (fun k => VKey (Some k)) ks ->
  forallb (fun k => negb (Incomplete k)) ks = true ->
  deleteStmt d now e isSoftDelete
  = Ok (mkStmt
          ("DELETE FROM " ++ GetTable d (Name e) ++ " WHERE "
           ++ Quote d pkColumn ++ " IN " ++ placeholderList (length ks) ++ ";")
          (map (fun k => VString (stringPk (Some k))) ks)).
Proof.
  intros Hhard Hrows Hall. unfold deleteStmt.
  replace (isSoftDelete && hasSoftDelete e) with false
    by (destruct Hhard as [-> | ->];
        [reflexivity | now rewrite andb_false_r]).
  rewrite (concatKeys_complete e ks Hrows Hall). cbn [bind].
  unfold Raw, Args. cbn [query args].
  rewrite !str_app_assoc. reflexivity.
Qed.

(** Rows that hold complete keys are passed over by the key loop. *)
Lemma keysLoop_passes (e : entity) (ks : list Key) :
  forall (pre rest : list Row) (i : nat) (buf : string) (args : list Value),
    map row_key pre = map (fun k => VKey (Some k)) ks ->
    forallb (fun k => negb (Incomplete k)) ks = true ->
    exists buf' args',
      keysLoop e i (List.app pre rest) buf args
      = keysLoop e (i + length ks) rest buf' args'.
Proof.
  induction ks as [|k ks IH]; intros pre rest i buf args Hrows Hall.
  - destruct pre; [| discriminate]. exists buf, args.
    now rewrite Nat.add_0_r.
  - destruct pre as [|f pre]; [discriminate |].
    simpl in Hrows. injection Hrows as Hk Hrows.
    simpl in Hall. apply andb_prop in Hall as [Hc Hall].
    apply negb_true_iff in Hc.
    cbn [List.app keysLoop]. rewrite Hk, Hc.
    match goal with
    | |- exists _ _, keysLoop _ _ _ ?b ?a = _ =>
        destruct (IH pre rest (S i) b a Hrows Hall) as (buf' & args' & ->)
    end.
    exists buf', args'. cbn [length]. now rewrite Nat.add_succ_r.
Qed.

(** X9. The first row that does not hold a complete key decides a
    delete, soft or hard: a nil key pointer makes the compilation panic
    on its dereference, a key field that is no key gives the
    missing-primary-key error. *)
Theorem deleteStmt_first_bad_row (now : string) (e : entity)
  (pre post : list Row) (f : Row) (ks : list Key) (isSoftDelete : bool) :
  slice e = List.app pre (f :: post) ->
  map row_key pre = map (fun k => VKey (Some k)) ks ->
  forallb (fun k => negb (Incomplete k)) ks = true ->
  (row_key f = VKey None ->
   deleteStmt d now e isSoftDelete = Panic nilDereference)
  /\ ((forall k, row_key f <> VKey k) ->
      deleteStmt d now e isSoftDelete
      = Err ("goloquent: entity " ++ GoStr.quoted (typeOfName e)
             ++ " has no primary key property")).
Proof.
  intros Hs Hrows Hall.
  destruct (keysLoop_passes e ks pre (f :: post) 0 "(" [] Hrows Hall)
    as (buf' & args' & Hloop).
  assert (Hc : forall r : result (string * list Value),
             keysLoop e (0 + length ks) (f :: post) buf' args' = r ->
             (forall x, r <> Ok x) ->
             deleteStmt d now e isSoftDelete
             = match r with
               | Ok _ => Panic ""
               | Err m => Err m
               | Panic m => Panic m
               end).
  { intros r Hr Hno. unfold deleteStmt, softDeleteStmt, concatKeys.
    rewrite Hs, Hloop, Hr.
    destruct r as [x| |]; [now destruct (Hno x) | |];
      destruct (isSoftDelete && hasSoftDelete e); reflexivity. }
  split.
  - intros Hk. apply (Hc (Panic nilDereference)).
    + cbn [keysLoop]. now rewrite Hk.
    + discriminate.
  - intros Hk.
    apply (Hc (Err ("goloquent: entity " ++ GoStr.quoted (typeOfName e)
                    ++ " has no primary key property"))).
    + cbn [keysLoop]. destruct (row_key f) as [| | | | |k| | |];
        try reflexivity. now destruct (Hk k).
    + discriminate.
Qed.

End DeleteFacts.

(** ** Insert *)

Section InsertFacts.

Context {pkg : Package}.
Variable d : Dialect.

Lemma Repeat_sep_first (s sep : string) (n : nat) :
  s ++ GoStr.Repeat (sep ++ s) n = GoStr.Join (repeat s (S n)) sep.
Proof.
  induction n as [|n IH].
  - simpl. now rewrite str_app_nil_r.
  - change (repeat s (S (S n))) with (s :: s :: repeat s n).
    rewrite Join_cons.
    change (s :: repeat s n) with (repeat s (S n)).
    rewrite <- IH. cbn [GoStr.Repeat]. now rewrite !str_app_assoc.
Qed.

(** A buffer that is not empty can drop its last byte. *)
Lemma Truncate_nonempty (a : string) (c : ascii) (b : string) :
  exists t, GoStr.Truncate (a ++ String c b)
              (GoStr.Len (a ++ String c b) - 1) = Ok t.
Proof.
  unfold GoStr.Truncate.
  set (n := (GoStr.Len (a ++ String c b) - 1)%Z).
  assert (Hn : (0 <= n <= Z.of_nat (String.length (a ++ String c b)))%Z).
  { unfold n, GoStr.Len. rewrite str_length_app. cbn [String.length]. lia. }
  destruct ((n <? 0)%Z || (Z.of_nat (String.length (a ++ String c b)) <? n)%Z)
    eqn:E; [| eauto].
  apply orb_true_iff in E as [E | E]; apply Z.ltb_lt in E; lia.
Qed.

(** One row of [putStmt] on a non-empty column list. *)
Lemma putRow_tuple (cols : list string) (i : nat) (row : Row)
  (vals : list Value) (buf : string) (args : list Value) :
  cols <> [] ->
  row_vals row cols = Ok (Some vals) ->
  putRow cols i row buf args
  = Ok (Some ((if negb (i =? 0)%nat then buf ++ "," else buf)
              ++ placeholderList (length cols),
              List.app args vals)).
Proof.
  intros Hne Hv. unfold putRow. rewrite Hv. cbn [bind].
  destruct cols as [|c cols]; [congruence |].
  cbn [length]. set (b := if negb (i =? 0)%nat then buf ++ "," else buf).
  rewrite (Repeat_as_Join variable "," (length cols)).
  replace (b ++ "(" ++ GoStr.Join (repeat variable (S (length cols))) ","
             ++ ",")
    with ((b ++ "(" ++ GoStr.Join (repeat variable (S (length cols))) ",")
            ++ ",")
    by (now rewrite !str_app_assoc).
  rewrite (Truncate_last_write _ ","). cbn [bind].
  unfold placeholderList. now rewrite !str_app_assoc.
Qed.

Lemma putRows_rest (cols : list string) (valss : list (list Value)) :
  cols <> [] ->
  forall (rows : list Row) (i : nat) (buf : string) (args : list Value),
    Forall2 (fun row vals => row_vals row cols = Ok (Some vals)) rows valss ->
    putRows cols (S i) rows buf args
    = Ok (Some (buf ++ GoStr.Repeat ("," ++ placeholderList (length cols))
                                    (length rows),
                List.app args (concat valss))).
Proof.
  intros Hne. induction valss as [|vals valss IH];
    intros rows i buf args Hall;
    inversion Hall as [|row' vals' rows' valss' Hv Hrest]; subst.
  - simpl. now rewrite str_app_nil_r, app_nil_r.
  - cbn [putRows]. rewrite (putRow_tuple cols (S i) row' vals buf args Hne Hv).
    cbn [bind Nat.eqb negb]. rewrite (IH rows' (S i) _ _ Hrest).
    cbn [length GoStr.Repeat concat].
    now rewrite !str_app_assoc, <- app_assoc.
Qed.

(** X10. On an entity with at least one column whose rows all yield
    their values, [putStmt] returns one multi-row INSERT: the quoted
    column list, one tuple of one placeholder per column for every row,
    the tuples separated by commas, and as arguments the values of the
    rows, row after row. *)
Theorem putStmt_rows (e : entity) (valss : list (list Value)) :
  Columns e <> [] ->
  Forall2 (fun row vals => row_vals row (Columns e) = Ok (Some vals))
          (slice e) valss ->
  putStmt d e
  = Ok (Some (mkStmt
          ("INSERT INTO " ++ GetTable d (Name e) ++ " ("
           ++ Quote d (GoStr.Join (Columns e) (Quote d ",")) ++ ") VALUES "
           ++ GoStr.Join (repeat (placeholderList (length (Columns e)))
                                 (length (slice e))) ","
           ++ ";")
          (concat valss))).
Proof.
  intros Hne Hall. unfold putStmt.
  destruct (slice e) as [|row rows] eqn:Hs;
    inversion Hall as [|row' vals rows' valss' Hv Hrest]; subst.
  - cbn [putRows bind length repeat GoStr.Join concat].
    now rewrite !str_app_assoc.
  - cbn [putRows].
    rewrite (putRow_tuple (Columns e) 0 row vals _ [] Hne Hv).
    cbn [bind Nat.eqb negb].
    rewrite (putRows_rest (Columns e) valss' Hne rows 0 _ _ Hrest).
    cbn [bind length concat List.app].
    rewrite <- (Repeat_sep_first (placeholderList (length (Columns e))) ",").
    now rewrite !str_app_assoc.
Qed.

(** Rows that yield their values are passed over by the row loop. *)
Lemma putRows_passes (cols : list string) (pre : list Row) :
  forall (rest : list Row) (i : nat) (buf : string) (args : list Value),
    Forall (fun row => exists vals, row_vals row cols = Ok (Some vals)) pre ->
    exists buf' args',
      putRows cols i (List.app pre rest) buf args
      = putRows cols (i + length pre) rest buf' args'.
Proof.
  induction pre as [|row pre IH]; intros rest i buf args Hall.
  - exists buf, args. cbn [List.app length]. now rewrite Nat.add_0_r.
  - inversion Hall as [|? ? [vals Hv] Hpre]; subst.
    cbn [List.app putRows]. unfold putRow. rewrite Hv. cbn [bind].
    set (b := (if negb (i =? 0)%nat then buf ++ "," else buf)).
    destruct (Truncate_nonempty b "("
                (GoStr.Repeat (variable ++ ",") (length cols))) as [t Ht].
    change (b ++ "(" ++ GoStr.Repeat (variable ++ ",") (length cols))
      with (b ++ String "(" (GoStr.Repeat (variable ++ ",") (length cols))).
    rewrite Ht. cbn [bind].
    destruct (IH rest (S i) (t ++ ")") (List.app args vals) Hpre)
      as (buf' & args' & ->).
    exists buf', args'. cbn [length]. now rewrite Nat.add_succ_r.
Qed.

Lemma omitLoop_no_error (omitted : list string) (idx : list nat) :
  forall (cols : strSlice) (m : string),
    omitLoop omitted idx cols <> Err m.
Proof.
  induction idx as [|i r IH]; intros cols m; cbn [omitLoop].
  - discriminate.
  - destruct (negb _); [apply IH |].
    unfold removeAt. destruct (_ <? _)%nat; [discriminate |].
    cbn [bind]. apply IH.
Qed.

(** X11. When [SaveStruct] fails on a row, after rows that yield their
    values, [putStmt] returns neither a statement nor an error, and
    [upsert], which goes on to read the statement, panics. *)
Theorem putStmt_swallows_SaveStruct_error (q : scope) (e : entity)
  (pre post : list Row) (row : Row) :
  slice e = List.app pre (row :: post) ->
  Forall (fun r => exists vals, row_vals r (Columns e) = Ok (Some vals)) pre ->
  row_vals row (Columns e) = Ok None ->
  putStmt d e = Ok None
  /\ exists msg, upsert d q e = Panic msg.
Proof.
  intros Hs Hpre Hrow.
  assert (Hput : putStmt d e = Ok None).
  { unfold putStmt. rewrite Hs.
    destruct (putRows_passes (Columns e) pre (row :: post) 0
                ("INSERT INTO " ++ GetTable d (Name e) ++ " ("
                 ++ Quote d (GoStr.Join (Columns e) (Quote d ",")) ++ ") "
                 ++ "VALUES ") [] Hpre) as (buf' & args' & ->).
    cbn [putRows]. unfold putRow. rewrite Hrow. reflexivity. }
  split; [exact Hput |].
  unfold upsert. rewrite Hs, length_app. cbn [length].
  replace (length pre + S (length post) <=? 0)%nat with false
    by (symmetry; apply Nat.leb_gt; lia).
  rewrite Hput. cbn [bind]. unfold conflictColumns.
  destruct (omitLoop (omits q) _ _) as [c|m|m] eqn:E; cbn [bind].
  - eauto.
  - now destruct (omitLoop_no_error _ _ _ _ E).
  - eauto.
Qed.

End InsertFacts.

(** ** The conflict columns of an upsert *)

Section OmitFacts.

Context {pkg : Package}.
Variable omitted : list string.

Lemma omitLoop_app (idx1 idx2 : list nat) :
  forall s : strSlice,
    omitLoop omitted (List.app idx1 idx2) s
    = s' <- omitLoop omitted idx1 s ;; omitLoop omitted idx2 s'.
Proof.
  induction idx1 as [|i r IH]; intros s; [reflexivity |].
  cbn [List.app omitLoop].
  destruct (negb _); [apply IH |].
  destruct (removeAt s i) as [s'| |]; cbn [bind]; [apply IH | | ];
    reflexivity.
Qed.

(** Indices whose cells hold no omitted column leave the slice alone. *)
Lemma omitLoop_skip (idx : list nat) (s : strSlice) :
  (forall i, List.In i idx -> dictionary_has omitted (nth i (backing s) "") = false) ->
  omitLoop omitted idx s = Ok s.
Proof.
  induction idx as [|i r IH]; intros H; [reflexivity |].
  cbn [omitLoop].
  rewrite (H i (or_introl eq_refl)). cbn [negb].
  apply IH. intros j Hj. apply H. now right.
Qed.

Lemma In_skipn_In (A : Type) (n : nat) (l : list A) (x : A) :
  List.In x (skipn n l) -> List.In x l.
Proof.
  intros H. rewrite <- (firstn_skipn n l). apply in_or_app. now right.
Qed.

(** X12. When no column is in the omission list the conflict columns are
    all the columns; when exactly one is, they are the columns without
    it, in order. *)
Theorem conflictColumns_at_most_one_omission (q : scope) (e : entity) :
  omits q = omitted ->
  ((forall x, List.In x (Columns e) -> dictionary_has omitted x = false) ->
   conflictColumns q e = Ok (Columns e))
  /\ (forall pre c post,
        Columns e = List.app pre (c :: post) ->
        dictionary_has omitted c = true ->
        (forall x, List.In x (List.app pre post) -> dictionary_has omitted x = false) ->
        conflictColumns q e = Ok (List.app pre post)).
Proof.
  intros Hq. unfold conflictColumns. rewrite Hq. split.
  - intros Hno. rewrite omitLoop_skip.
    + cbn [bind]. unfold elems, sliceOf. cbn [slen backing].
      now rewrite firstn_all.
    + intros i Hi. apply in_seq in Hi. cbn [sliceOf slen backing] in *.
      apply Hno, nth_In. lia.
  - intros pre c post Hc Hhas Hno. rewrite Hc.
    unfold sliceOf. cbn [slen].
    set (cols := List.app pre (c :: post)).
    set (p := length pre).
    assert (Hn : length cols = p + S (length post))
      by (unfold cols, p; rewrite length_app; reflexivity).
    rewrite Hn, seq_app. cbn [seq]. rewrite omitLoop_app.
    rewrite omitLoop_skip.
    2:{ intros i Hi. apply in_seq in Hi. cbn [backing].
        unfold cols. rewrite app_nth1 by (fold p; lia).
        apply Hno, in_or_app. left. apply nth_In. fold p. lia. }
    cbn [bind omitLoop backing].
    replace (nth (0 + p) cols "") with c
      by (unfold cols; rewrite app_nth2 by (fold p; lia);
          replace (0 + p - length pre) with 0 by (fold p; lia);
          reflexivity).
    rewrite Hhas. cbn [negb].
    unfold removeAt. cbn [slen backing].
    replace (p + S (length post) <? 0 + p + 1)%nat with false
      by (symmetry; apply Nat.ltb_ge; lia).
    cbn [bind].
    assert (H1 : firstn (0 + p) cols = pre).
    { unfold cols. rewrite firstn_app.
      replace (0 + p - length pre) with 0 by (fold p; lia).
      rewrite firstn_0, app_nil_r. apply firstn_all2. fold p. lia. }
    assert (H2 : skipn (0 + p + 1) cols = post).
    { unfold cols. rewrite skipn_app.
      rewrite skipn_all2 by (fold p; lia).
      replace (0 + p + 1 - length pre) with 1 by (fold p; lia).
      reflexivity. }
    rewrite H1, H2.
    replace (p + S (length post) - (0 + p + 1)) with (length post) by lia.
    rewrite firstn_all.
    set (tl := skipn (p + S (length post) - 1) cols).
    assert (Htl : forall x, List.In x tl -> post <> [] -> List.In x post).
    { intros x Hx Hpost. unfold tl, cols in Hx. rewrite skipn_app in Hx.
      rewrite skipn_all2 in Hx by (fold p; lia).
      cbn [List.app] in Hx.
      replace (p + S (length post) - 1 - length pre) with (S (length post - 1))
        in Hx
        by (fold p; destruct post; [congruence | simpl; lia]).
      cbn [skipn] in Hx. exact (In_skipn_In _ _ _ _ Hx). }
    rewrite omitLoop_skip.
    + cbn [bind]. unfold elems. cbn [slen backing].
      replace (p + S (length post) - 1) with (length (List.app pre post) + 0)
        by (rewrite length_app; fold p; lia).
      rewrite app_assoc, firstn_app_2, firstn_0, app_nil_r. reflexivity.
    + intros i Hi. apply in_seq in Hi. cbn [backing].
      assert (Hpost : post <> []) by (destruct post; [simpl in Hi; lia | discriminate]).
      assert (Hlen : length (List.app pre (List.app post tl)) = length cols).
      { rewrite !length_app. unfold tl. rewrite length_skipn, Hn.
        fold p. lia. }
      assert (Hin : List.In (nth i (List.app pre (List.app post tl)) "")
                      (List.app pre (List.app post tl)))
        by (apply nth_In; rewrite Hlen, Hn; lia).
      apply in_app_or in Hin as [Hin | Hin].
      * apply Hno, in_or_app. now left.
      * apply in_app_or in Hin as [Hin | Hin].
        -- apply Hno, in_or_app. now right.
        -- apply Hno, in_or_app. right. now apply Htl.
Qed.

End OmitFacts.

Section OmitPanics.

Context {pkg : Package}.
Variable omitted : list string.
Variable n : nat.
Variable z : string.

Lemma removeAt_keeps (s s' : strSlice) (i : nat) :
  keepsLast n z s -> i < n - 1 -> removeAt s i = Ok s' ->
  keepsLast n z s' /\ slen s' < n.
Proof.
  intros (Hl & Hz & Hs) Hi H. unfold removeAt in H.
  destruct (slen s <? i + 1)%nat eqn:E; [discriminate |].
  apply Nat.ltb_ge in E. injection H as <-. unfold keepsLast. cbn [backing slen].
  split; [split; [| split] |]; try lia.
  - rewrite !length_app, !length_firstn, !length_skipn. lia.
  - rewrite app_assoc, app_nth2;
      rewrite length_app, !length_firstn, length_skipn; try lia.
    rewrite nth_skipn. rewrite <- Hz. f_equal. lia.
Qed.

Lemma omitLoop_keeps (idx : list nat) :
  forall s : strSlice,
    (forall i, List.In i idx -> i < n - 1) ->
    keepsLast n z s -> slen s < n ->
    (exists s', omitLoop omitted idx s = Ok s' /\ keepsLast n z s' /\ slen s' < n)
    \/ omitLoop omitted idx s
       = Panic "runtime error: slice bounds out of range".
Proof.
  induction idx as [|i r IH]; intros s Hidx Hk Hs.
  - left. exists s. split; [reflexivity | split; assumption].
  - cbn [omitLoop]. destruct (negb _).
    + apply IH; auto. intros j Hj. apply Hidx. now right.
    + destruct (removeAt s i) as [s'|m|m] eqn:E; cbn [bind].
      * destruct (removeAt_keeps s s' i Hk (Hidx i (or_introl eq_refl)) E)
          as [Hk' Hs'].
        apply IH; auto. intros j Hj. apply Hidx. now right.
      * unfold removeAt in E. destruct (_ <? _)%nat; discriminate.
      * right. unfold removeAt in E.
        destruct (_ <? _)%nat; [now injection E as <- | discriminate].
Qed.

Lemma first_omitted (body : list string) :
  (exists c, List.In c body /\ dictionary_has omitted c = true) ->
  exists pre c mid,
    body = List.app pre (c :: mid) /\ dictionary_has omitted c = true
    /\ forall x, List.In x pre -> dictionary_has omitted x = false.
Proof.
  induction body as [|x r IH]; intros (c & Hin & Hc); [destruct Hin |].
  destruct (dictionary_has omitted x) eqn:Hx.
  - exists [], x, r. repeat split; auto. intros y [].
  - destruct IH as (pre & c' & mid & -> & Hc' & Hpre).
    + destruct Hin as [<- | Hin]; [congruence | eauto].
    + exists (x :: pre), c', mid. repeat split; auto.
      intros y [<- | Hy]; auto.
Qed.

(** X13. When the last column is in the omission list and an earlier
    column is too, the loop of [upsert] over the columns panics on a
    slice bound, and so does [upsert] once the insert statement is
    built. *)
Theorem conflictColumns_last_and_other_panics (d : Dialect) (q : scope)
  (e : entity) (body : list string) :
  omits q = omitted ->
  Columns e = List.app body [z] ->
  length (Columns e) = n ->
  dictionary_has omitted z = true ->
  (exists c, List.In c body /\ dictionary_has omitted c = true) ->
  conflictColumns q e = Panic "runtime error: slice bounds out of range"
  /\ (forall stmt, slice e <> [] -> putStmt d e = Ok stmt ->
        upsert d q e = Panic "runtime error: slice bounds out of range").
Proof.
  intros Hq Hcols Hn Hz Hex.
  assert (Hpanic :
    conflictColumns q e = Panic "runtime error: slice bounds out of range").
  { destruct (first_omitted body Hex) as (pre & c & mid & -> & Hc & Hpre).
    unfold conflictColumns. rewrite Hq, Hcols.
    set (cols := List.app (List.app pre (c :: mid)) [z]).
    assert (Hlen : length cols = n) by (unfold cols; now rewrite <- Hcols).
    assert (Hn' : n = length pre + S (length mid + 1)).
    { rewrite <- Hlen. unfold cols. rewrite !length_app. simpl. lia. }
    unfold sliceOf. cbn [slen]. rewrite Hlen.
    replace n with (length pre + (1 + (length mid + 1))) at 1 by lia.
    rewrite seq_app, omitLoop_app.
    rewrite omitLoop_skip.
    2:{ intros i Hi. apply in_seq in Hi. cbn [backing].
        unfold cols. rewrite <- app_assoc, app_nth1 by lia.
        apply Hpre, nth_In. lia. }
    cbn [bind]. rewrite (seq_app 1), omitLoop_app.
    cbn [seq omitLoop backing].
    replace (nth (0 + length pre) cols "") with c
      by (unfold cols; rewrite <- app_assoc, app_nth2 by lia;
          replace (0 + length pre - length pre) with 0 by lia;
          reflexivity).
    rewrite Hc. cbn [negb].
    assert (Hk0 : keepsLast n z (mkSlice cols n)).
    { unfold keepsLast. cbn [backing slen]. repeat split; auto.
      unfold cols. rewrite app_nth2; rewrite length_app; simpl; try lia.
      replace (n - 1 - (length pre + S (length mid))) with 0 by lia.
      reflexivity. }
    destruct (removeAt (mkSlice cols n) (0 + length pre)) as [s1|m|m] eqn:E1.
    2:{ unfold removeAt in E1. destruct (_ <? _)%nat; discriminate. }
    2:{ unfold removeAt in E1. cbn [slen] in E1.
        replace (n <? 0 + length pre + 1)%nat with false in E1
          by (symmetry; apply Nat.ltb_ge; lia).
        discriminate. }
    assert (Hp : 0 + length pre < n - 1) by lia.
    destruct (removeAt_keeps _ _ _ Hk0 Hp E1) as [Hk1 Hs1].
    cbn [bind]. rewrite (seq_app (length mid)), omitLoop_app.
    destruct (omitLoop_keeps (seq (0 + length pre + 1) (length mid)) s1)
      as [(s2 & -> & Hk2 & Hs2) | ->]; auto.
    { intros i Hi. apply in_seq in Hi. lia. }
    cbn [bind seq omitLoop].
    destruct Hk2 as (Hl2 & Hz2 & _).
    replace (0 + length pre + 1 + length mid) with (n - 1) by lia.
    rewrite Hz2. rewrite Hz. cbn [negb].
    unfold removeAt.
    replace (slen s2 <? n - 1 + 1)%nat with true
      by (symmetry; apply Nat.ltb_lt; lia).
    reflexivity. }
  split; [exact Hpanic |].
  intros stmt Hrows Hput. unfold upsert.
  destruct (slice e) as [|r rs]; [congruence |].
  cbn [length Nat.leb]. rewrite Hput. cbn [bind]. now rewrite Hpanic.
Qed.

End OmitPanics.

(** ** The conflict clause *)

Lemma fold_left_writes (g : string -> string) (l : list string) :
  forall acc : string,
    fold_left (fun buf c => buf ++ g c) l acc
    = acc ++ fold_right String.append "" (map g l).
Proof.
  induction l as [|x r IH]; intros acc; simpl.
  - now rewrite str_app_nil_r.
  - now rewrite IH, str_app_assoc.
Qed.

(** X14. mysql's [OnConflictUpdate] never panics: on columns it returns
    [ON DUPLICATE KEY UPDATE] followed by one assignment
    [`c`=VALUES(`c`)] per column, joined by commas; on no column it
    returns the bare keyword. *)
Theorem mysql_OnConflictUpdate_text (table : string) (cols : list string) :
  mysql_OnConflictUpdate table cols
  = Ok (match cols with
        | [] => "ON DUPLICATE KEY UPDATE"
        | _ => "ON DUPLICATE KEY UPDATE "
               ++ GoStr.Join (map mysql_conflictAssignment cols) ","
        end).
Proof.
  unfold mysql_OnConflictUpdate.
  destruct cols as [|c r]; [reflexivity |].
  rewrite (fold_left_writes
             (fun c => mysql_Quote c ++ "=VALUES(" ++ mysql_Quote c ++ "),")).
  replace (map (fun c => mysql_Quote c ++ "=VALUES(" ++ mysql_Quote c ++ "),")
             (c :: r))
    with (map (fun x => x ++ ",") (map mysql_conflictAssignment (c :: r))).
  - rewrite writes_as_Join by discriminate.
    rewrite <- str_app_assoc.
    exact (Truncate_last_write _ ",").
  - rewrite map_map. apply map_ext. intros a.
    unfold mysql_conflictAssignment. now rewrite !str_app_assoc.
Qed.

Section UpsertFacts.

Context {pkg : Package}.
Variable d : Dialect.

Lemma putStmt_terminated (e : entity) (stmt : Stmt) :
  putStmt d e = Ok (Some stmt) ->
  exists body, query stmt = body ++ ";".
Proof.
  unfold putStmt. intros H.
  destruct (putRows _ _ _ _ _) as [[[buf a]|]| |]; simpl in H;
    try discriminate.
  injection H as <-. exists buf. reflexivity.
Qed.

(** X15. An upsert that compiles is the insert statement of the same
    rows with the conflict clause of the dialect, built on the conflict
    columns, put after a blank in front of the terminator; the arguments
    are those of the insert. *)
Theorem upsert_appends_conflict_clause (q : scope) (e : entity)
  (stmt : Stmt) (cols : list string) (clause : string) :
  slice e <> [] ->
  putStmt d e = Ok (Some stmt) ->
  conflictColumns q e = Ok cols ->
  cols <> [] ->
  OnConflictUpdate d (Name e) cols = Ok clause ->
  exists body,
    query stmt = body ++ ";"
    /\ upsert d q e
       = Ok (Some (mkStmt (body ++ " " ++ clause ++ ";") (args stmt))).
Proof.
  intros Hrows Hput Hcols Hne Hclause.
  destruct (putStmt_terminated e stmt Hput) as [body Hbody].
  exists body. split; [exact Hbody |].
  unfold upsert. destruct (slice e) as [|r rs]; [congruence |].
  cbn [length Nat.leb]. rewrite Hput, Hcols. cbn [bind].
  unfold Raw. rewrite Hbody.
  pose proof (Truncate_last_write body ";") as HT.
  change (Z.of_nat (String.length ";")) with 1%Z in HT.
  rewrite HT. cbn [bind].
  destruct cols as [|c cs]; [congruence |].
  cbn [length Nat.ltb Nat.leb]. rewrite Hclause. cbn [bind].
  unfold Args. now rewrite !str_app_assoc.
Qed.

End UpsertFacts.

(** ** Truncating tables *)

Section TruncateFacts.

Variable d : Dialect.
Variable database : Type.
Variable ExecStmt : Stmt -> database -> option string * database.
Variable TrimSpace : string -> string.

Lemma truncate_app (pre post : list string) (db db1 : database) :
  truncate d database ExecStmt pre db = (None, db1) ->
  truncate d database ExecStmt (List.app pre post) db
  = truncate d database ExecStmt post db1.
Proof.
  revert db. induction pre as [|t r IH]; intros db H; simpl in H |- *.
  - now injection H as <-.
  - destruct (ExecStmt _ db) as [[err|] db']; [discriminate |].
    exact (IH db' H).
Qed.

(** X16. [truncate] stops at the first table whose statement fails: it
    returns that error, and the database is as that statement left it,
    whatever tables follow. *)
Theorem truncate_stops_at_first_error (pre post : list string)
  (name err : string) (db db1 db2 : database) :
  truncate d database ExecStmt pre db = (None, db1) ->
  ExecStmt (mkStmt ("TRUNCATE TABLE " ++ GetTable d name ++ ";") []) db1
  = (Some err, db2) ->
  truncate d database ExecStmt (List.app pre (name :: post)) db
  = (Some err, db2).
Proof.
  intros Hpre Hexec. rewrite (truncate_app pre (name :: post) db db1 Hpre).
  cbn [truncate]. now rewrite Hexec.
Qed.

Lemma tableNames_refuses (models : list tableModel) :
  (exists m, List.In m models /\ refused TrimSpace m) ->
  (forall m, List.In m models -> m <> ModelNil) ->
  forall ns, exists err, tableNames TrimSpace models ns = Err err.
Proof.
  induction models as [|m r IH]; intros (x & Hin & Hx) Hnil ns.
  - destruct Hin.
  - cbn [tableNames].
    destruct m as [|s|s|].
    + now destruct (Hnil ModelNil (or_introl eq_refl)).
    + destruct (TrimSpace s =? "") eqn:E; [eauto |].
      apply IH.
      * destruct Hin as [<- | Hin]; [| eauto].
        simpl in Hx. rewrite Hx in E. discriminate.
      * intros y Hy. apply Hnil. now right.
    + destruct (TrimSpace s =? "") eqn:E; [eauto |].
      apply IH.
      * destruct Hin as [<- | Hin]; [| eauto].
        simpl in Hx. rewrite Hx in E. discriminate.
      * intros y Hy. apply Hnil. now right.
    + eauto.
Qed.

(** X17. [Truncate] of [DB] resolves every table name before it
    truncates any table: when one of the models, none being nil, is
    neither a string nor a struct or has a blank name, it returns an
    error and leaves the database untouched, also the tables listed
    before that model. *)
Theorem DB_Truncate_validates_first (models : list tableModel)
  (db : database) :
  (exists m, List.In m models /\ refused TrimSpace m) ->
  (forall m, List.In m models -> m <> ModelNil) ->
  exists err,
    DB_Truncate d database ExecStmt TrimSpace models db = Ok (Some err, db).
Proof.
  intros Hbad Hnil.
  destruct (tableNames_refuses models Hbad Hnil []) as [err He].
  exists err. unfold DB_Truncate. now rewrite He.
Qed.

End TruncateFacts.

(** ** Transactions: what is left behind *)

(** X18. [runInTransaction] never leaves a transaction open: when it has
    begun one, the transaction is done at the return and the driver has
    seen exactly one call, a commit or a rollback; when it has begun
    none, it returns an error. *)
Theorem runInTransaction_finishes (b_db : DB) (cb : TransactionHandler) :
  (forall tx', snd (runInTransaction b_db cb) = Some tx' ->
     Sql.done tx' = true
     /\ (Sql.calls tx' = [Sql.DriverCommit]
         \/ Sql.calls tx' = [Sql.DriverRollback]))
  /\ (snd (runInTransaction b_db cb) = None ->
      exists err, fst (runInTransaction b_db cb) = Return (Some err)).
Proof.
  unfold runInTransaction, Sql.Begin.
  destruct (client_sqlCommon b_db) as [drv | tx0].
  - destruct (Sql.beginErr drv) as [e|].
    + split; [intros tx' H; discriminate | intros _; eexists; reflexivity].
    + split.
      * intros tx' H.
        destruct (cb _) as [[err|]|v]; simpl in H; injection H as <-;
          simpl; auto.
      * destruct (cb _) as [[err|]|v]; discriminate.
  - split; [intros tx' H; discriminate | intros _; eexists; reflexivity].
Qed.

(** ** Updates from a map, saving one entity *)

Section MutationFacts.

Context {pkg : Package}.
Variable d : Dialect.
Variable marshalValue : Value -> result Value.
Variable keyText : KeyPtr -> string.

Lemma Join_as_writes_first (x sep : string) (r : list string) :
  x ++ fold_right String.append "" (map (fun y => sep ++ y) r)
  = GoStr.Join (x :: r) sep.
Proof.
  revert x. induction r as [|y r IH]; intros x.
  - simpl. now rewrite str_app_nil_r.
  - rewrite Join_cons, <- IH. cbn [map fold_right].
    now rewrite !str_app_assoc.
Qed.

Lemma mapLoop_rejects_key (entries : list (Value * Value)) :
  List.In (VString keyFieldName) (map fst entries) ->
  forall i buf args,
    isOk (mapLoop d marshalValue i entries buf args) = false.
Proof.
  induction entries as [|[k vv] r IH]; intros Hin i buf args;
    [destruct Hin |].
  cbn [mapLoop].
  destruct k; try reflexivity.
  destruct (s =? keyFieldName) eqn:E; [reflexivity |].
  destruct (marshalValue vv) as [vi| |]; cbn [bind]; try reflexivity.
  apply IH. destruct Hin as [Hin | Hin]; [| exact Hin].
  simpl in Hin. injection Hin as Hs. rewrite Hs, String.eqb_refl in E.
  discriminate.
Qed.

(** X19. [updateWithMap] never compiles a map that has the logical key
    field among its keys, wherever the iteration meets it. *)
Theorem updateWithMap_rejects_key (entries : list (Value * Value)) :
  List.In (VString keyFieldName) (map fst entries) ->
  isOk (updateWithMap d marshalValue entries) = false.
Proof.
  intros Hin. unfold updateWithMap.
  pose proof (mapLoop_rejects_key entries Hin 0 "" []) as H.
  destruct (mapLoop d marshalValue 0 entries "" []) as [[b a]| |];
    [discriminate | reflexivity | reflexivity].
Qed.

Lemma mapLoop_rest (entries : list (Value * Value)) :
  forall i buf args b a,
    mapLoop d marshalValue (S i) entries buf args = Ok (b, a) ->
    exists keys vals,
      map fst entries = map VString keys
      /\ ~ List.In keyFieldName keys
      /\ b = buf ++ fold_right String.append ""
                      (map (fun y => "," ++ y)
                         (map (fun k => Quote d k ++ " = ?") keys))
      /\ a = List.app args vals
      /\ Forall2 (fun e v => marshalValue (snd e) = Ok v) entries vals.
Proof.
  induction entries as [|[k vv] r IH]; intros i buf args b a H.
  - simpl in H. injection H as <- <-. exists [], [].
    repeat split; auto. simpl. now rewrite str_app_nil_r.
    now rewrite app_nil_r.
  - cbn [mapLoop Nat.ltb Nat.leb] in H.
    destruct k; try discriminate.
    destruct (s =? keyFieldName) eqn:E; [discriminate |].
    destruct (marshalValue vv) as [vi| |] eqn:Hm; cbn [bind] in H;
      try discriminate.
    destruct (IH _ _ _ _ _ H) as (keys & vals & Hk & Hno & -> & -> & Hall).
    exists (s :: keys), (vi :: vals). repeat split.
    + simpl. now rewrite Hk.
    + intros [Hs | Hin]; [| now apply Hno].
      rewrite Hs, String.eqb_refl in E. discriminate.
    + unfold variable. cbn [map fold_right]. now rewrite !str_app_assoc.
    + now rewrite <- app_assoc.
    + constructor; assumption.
Qed.

(** X20. A statement [updateWithMap] returns assigns one placeholder to
    each key of the map, quoted, in the order of the iteration and
    separated by commas; none of the keys is the logical key field, and
    the arguments are the marshalled values in the same order. *)
Theorem updateWithMap_assignments (entries : list (Value * Value))
  (s : Stmt) :
  updateWithMap d marshalValue entries = Ok s ->
  exists keys : list string,
    map fst entries = map VString keys
    /\ ~ List.In keyFieldName keys
    /\ query s = GoStr.Join (map (fun k => Quote d k ++ " = ?") keys) ","
    /\ Forall2 (fun e v => marshalValue (snd e) = Ok v) entries (args s).
Proof.
  unfold updateWithMap. intros H.
  destruct (mapLoop d marshalValue 0 entries "" []) as [[b a]| |] eqn:Hl;
    simpl in H; try discriminate.
  injection H as <-. cbn [query args].
  destruct entries as [|[k vv] r].
  - simpl in Hl. injection Hl as <- <-. exists []. repeat split; auto.
  - cbn [mapLoop Nat.ltb Nat.leb] in Hl.
    destruct k; try discriminate.
    destruct (s =? keyFieldName) eqn:E; [discriminate |].
    destruct (marshalValue vv) as [vi| |] eqn:Hm; cbn [bind] in Hl;
      try discriminate.
    destruct (mapLoop_rest _ _ _ _ _ _ Hl)
      as (keys & vals & Hk & Hno & -> & -> & Hall).
    exists (s :: keys). repeat split.
    + simpl. now rewrite Hk.
    + intros [Hs | Hin]; [| now apply Hno].
      rewrite Hs, String.eqb_refl in E. discriminate.
    + cbn [map]. rewrite <- Join_as_writes_first.
      unfold variable. now rewrite !str_app_assoc.
    + constructor; assumption.
Qed.

(** What the loop of [saveMutation] writes. *)
Lemma saveLoop_writes (omitted : list string)
  (props : list (string * Property)) :
  forall (buf : string) (args : list Value) (b : string) (a : list Value),
    saveLoop d omitted props buf args = Ok (b, a) ->
    let kept := filter (fun kp => negb (dictionary_has omitted (fst kp)))
                       props in
    b = buf ++ fold_right String.append ""
                 (map (fun x => x ++ ",")
                    (map (fun kp => Quote d (fst kp) ++ " = ?") kept))
    /\ exists vals,
         a = List.app args vals
         /\ Forall2 (fun kp v => Property_Interface (snd kp) = Ok v) kept vals.
Proof.
  induction props as [|[k p] r IH]; intros buf args b a H; simpl in H.
  - injection H as <- <-. simpl. split; [now rewrite str_app_nil_r |].
    exists []. split; [now rewrite app_nil_r | constructor].
  - cbn [filter fst]. destruct (dictionary_has omitted k) eqn:Ho; cbn [negb].
    + exact (IH _ _ _ _ H).
    + destruct (Property_Interface p) as [it| |] eqn:Hit; simpl in H;
        try discriminate.
      destruct (IH _ _ _ _ H) as (Hb & vs & Ha & Hall).
      split.
      * rewrite Hb. cbn [map fold_right fst]. unfold variable.
        now rewrite !str_app_assoc.
      * exists (it :: vs). split.
        -- rewrite Ha, <- app_assoc. reflexivity.
        -- constructor; assumption.
Qed.

(** X21. Every statement [saveMutation] returns is an UPDATE of one row:
    the first model holds a complete key, which is the last argument,
    under [WHERE key = ?]; the SET clause assigns the properties other
    than the key field and the omitted ones, each with its value as
    argument, and when no property is left the statement is
    [UPDATE table SET WHERE key = ?]. *)
Theorem saveMutation_statement (q : scope) (name typ : string)
  (models : list savedModel) (s : Stmt) :
  saveMutation d keyText q name typ models = Ok (Some s) ->
  exists f rest props k vals,
    models = f :: rest
    /\ savedProps f = Ok props
    /\ prop_Value (lookupProp props keyFieldName) = VKey (Some k)
    /\ Incomplete k = false
    /\ let kept :=
         filter (fun kp => negb (dictionary_has (omits q) (fst kp)))
                (deleteProp props keyFieldName) in
       Forall2 (fun kp v => Property_Interface (snd kp) = Ok v) kept vals
       /\ args s = List.app vals [VString (stringPk (Some k))]
       /\ query s
          = "UPDATE " ++ GetTable d name
            ++ match kept with
               | [] => " SET"
               | _ => " SET "
                      ++ GoStr.Join
                           (map (fun kp => Quote d (fst kp) ++ " = ?") kept)
                           ","
               end
            ++ " WHERE " ++ Quote d pkColumn ++ " = ?;".
Proof.
  unfold saveMutation. intros H.
  destruct models as [|f rest]; [discriminate |].
  destruct (saveHook f); [discriminate |].
  destruct (savedProps f) as [props| |] eqn:Hp; cbn [bind] in H;
    try discriminate.
  destruct (prop_Value (lookupProp props keyFieldName)) eqn:Hk;
    try discriminate.
  destruct k as [k|]; [| discriminate].
  destruct (Incomplete k) eqn:Hc; [discriminate |].
  destruct (saveLoop d (omits q) (deleteProp props keyFieldName) _ [])
    as [[b a]| |] eqn:Hl; cbn [bind] in H; try discriminate.
  destruct (saveLoop_writes _ _ _ _ _ _ Hl) as (Hb & vals & Ha & Hall).
  simpl in Ha. subst a.
  exists f, rest, props, k, vals.
  split; [reflexivity |]. split; [exact Hp |].
  split; [exact Hk |]. split; [exact Hc |].
  cbv zeta.
  set (kept := filter (fun kp => negb (dictionary_has (omits q) (fst kp)))
                      (deleteProp props keyFieldName)) in *.
  split; [exact Hall |].
  destruct kept as [|k0 kr] eqn:Ekept.
  - cbn [map fold_right] in Hb. rewrite str_app_nil_r in Hb. subst b.
    replace ("UPDATE " ++ GetTable d name ++ " SET ")
      with (("UPDATE " ++ GetTable d name ++ " SET") ++ " ") in H
      by (now rewrite !str_app_assoc).
    pose proof (Truncate_last_write
                  ("UPDATE " ++ GetTable d name ++ " SET") " ") as HT.
    change (Z.of_nat (String.length " ")) with 1%Z in HT.
    rewrite HT in H. cbn [bind] in H. injection H as <-.
    cbn [query args]. split; [reflexivity |].
    unfold variable. now rewrite !str_app_assoc.
  - rewrite writes_as_Join in Hb by discriminate. subst b.
    set (J := GoStr.Join (map (fun kp => Quote d (fst kp) ++ " = ?")
                              (k0 :: kr)) ",") in *.
    replace (("UPDATE " ++ GetTable d name ++ " SET ") ++ J ++ ",")
      with ((("UPDATE " ++ GetTable d name ++ " SET ") ++ J) ++ ",") in H
      by (now rewrite !str_app_assoc).
    pose proof (Truncate_last_write
                  (("UPDATE " ++ GetTable d name ++ " SET ") ++ J) ",") as HT.
    change (Z.of_nat (String.length ",")) with 1%Z in HT.
    rewrite HT in H. cbn [bind] in H. injection H as <-.
    cbn [query args]. split; [reflexivity |].
    unfold variable. now rewrite !str_app_assoc.
Qed.

End MutationFacts.

(** ** The key codec of filters *)

Section KeyStringFacts.

Context {pkg : Package}.

Lemma Value_nested_ind (P : Value -> Prop) :
  P VNil ->
  (forall b, P (VBool b)) ->
  (forall z, P (VInt z)) ->
  (forall s, P (VString s)) ->
  (forall s, P (VBytes s)) ->
  (forall k, P (VKey k)) ->
  (forall ks, P (VKeys ks)) ->
  (forall xs, Forall P xs -> P (VList xs)) ->
  (forall t, P (VOther t)) ->
  forall v, P v.
Proof.
  intros Hnil Hb Hi Hs Hby Hk Hks Hl Ho.
  fix IH 1. intros [|b|z|s|s|k|ks|xs|t].
  - exact Hnil.
  - exact (Hb b).
  - exact (Hi z).
  - exact (Hs s).
  - exact (Hby s).
  - exact (Hk k).
  - exact (Hks ks).
  - apply Hl. revert xs. fix IHxs 1. intros [|x xs]; constructor.
    + apply IH.
    + apply IHxs.
  - exact (Ho t).
Qed.

Lemma interfaceToKeyString_list (xs : list Value) :
  interfaceToKeyString (VList xs)
  = arr <- mapResult interfaceToKeyString xs ;; Ok (VList arr).
Proof.
  cbn [interfaceToKeyString]. f_equal.
  induction xs as [|x r IH]; [reflexivity |].
  cbn [mapResult]. rewrite <- IH. reflexivity.
Qed.

Lemma mapResult_strings (ks : list KeyPtr) :
  mapResult interfaceToKeyString
    (map (fun kk => VString (stringPk kk)) ks)
  = Ok (map (fun kk => VString (stringPk kk)) ks).
Proof.
  induction ks as [|k r IH]; [reflexivity |].
  cbn [map mapResult interfaceToKeyString bind]. now rewrite IH.
Qed.

(** X22. [interfaceToKeyString] is idempotent: a value it returns is
    returned unchanged when converted again. *)
Theorem interfaceToKeyString_idempotent (v r : Value) :
  interfaceToKeyString v = Ok r ->
  interfaceToKeyString r = Ok r.
Proof.
  revert r. induction v using Value_nested_ind; intros r Hr;
    try (simpl in Hr; injection Hr as <-; reflexivity);
    try (simpl in Hr; discriminate).
  - simpl in Hr. injection Hr as <-.
    rewrite interfaceToKeyString_list, mapResult_strings. reflexivity.
  - rewrite interfaceToKeyString_list in Hr.
    destruct (mapResult interfaceToKeyString xs) as [arr| |] eqn:E;
      cbn [bind] in Hr; try discriminate.
    injection Hr as <-. rewrite interfaceToKeyString_list.
    assert (Harr : mapResult interfaceToKeyString arr = Ok arr).
    { clear -H E. revert arr E.
      induction H as [|x xs Hx Hxs IH]; intros arr E; cbn [mapResult] in E.
      - now injection E as <-.
      - destruct (interfaceToKeyString x) as [y| |] eqn:Ey; cbn [bind] in E;
          try discriminate.
        destruct (mapResult interfaceToKeyString xs) as [ys| |] eqn:Eys;
          cbn [bind] in E; try discriminate.
        injection E as <-. cbn [mapResult].
        rewrite (Hx y eq_refl). cbn [bind].
        now rewrite (IH ys eq_refl). }
    now rewrite Harr.
Qed.

End KeyStringFacts.

(** ** Bulk update from a struct: nothing to set *)

Section UpdateEdge.

Context {pkg : Package}.
Variable d : Dialect.

Lemma setLoop_all_skipped (q : scope) (props : list Property) :
  (forall p, List.In p props -> skipped q p = true) ->
  forall buf args, setLoop d q props buf args = Ok (buf, args).
Proof.
  induction props as [|p r IH]; intros Hall buf args; [reflexivity |].
  cbn [setLoop]. rewrite (Hall p (or_introl eq_refl)).
  apply IH. intros x Hx. apply Hall. now right.
Qed.

(** X23. When the loop of [updateWithStruct] skips every property, the
    key field and the zero-valued fields outside the projection, the
    function panics on the truncation of its empty buffer instead of
    returning an error. *)
Theorem updateWithStruct_nothing_to_set_panics (q : scope)
  (model : structModel) (props : list Property) :
  checkSinglePtr model = None ->
  SaveStruct model = Ok props ->
  (forall p, List.In p props -> skipped q p = true) ->
  updateWithStruct d q model = Panic "bytes.Buffer: truncation out of range".
Proof.
  intros Hc Hs Hall. unfold updateWithStruct.
  rewrite Hc, Hs. cbn [bind].
  rewrite (setLoop_all_skipped q props Hall). reflexivity.
Qed.

End UpdateEdge.

(** * Concrete instances *)

#[local] Existing Instance samplePackage.

(** ** Upsert *)

(** C3, on the code.  With the columns [$Key, Name, Age, Email] and the
    omission list [Name, Age], the loop of [upsert] drops [Name], moves
    on past [Age], which has slid into the cell just visited, and keeps
    it: the conflict clause updates the omitted column [Age], and the key
    column as well.  With an empty omission list the clause is built on
    every column, the key column included. *)
Theorem upsert_keeps_omitted_column :
  conflictColumns (omitScope ["Name"; "Age"]) (softEntity twoRows)
  = Ok ["$Key"; "Age"; "Email"]
  /\ upsert sampleDialect (omitScope ["Name"; "Age"]) (softEntity twoRows)
     = Ok (Some (mkStmt
          ("INSERT INTO `db`.`User` (`$Key`,`Name`,`Age`,`Email`) "
           ++ "VALUES (?,?,?,?),(?,?,?,?) ON DUPLICATE KEY UPDATE "
           ++ "`$Key`=VALUES(`$Key`),`Age`=VALUES(`Age`),"
           ++ "`Email`=VALUES(`Email`);")
          [VString "User,1"; VString "alice"; VInt 31; VString "a@x";
           VString "User,'bob'"; VString "bob"; VInt 47; VString "b@x"]))
  /\ conflictColumns (omitScope []) (softEntity twoRows) = Ok sampleColumns.
Proof.
  repeat split; vm_compute; reflexivity.
Qed.

(** ** Transactions *)

Lemma runInTransaction_outcomes_witness :
  runInTransaction (mkDB (SqlDB plainDriver)) (fun _ => Return (Some "late"))
  = (Return (Some "late"),
     Some (Sql.mkTx true [Sql.DriverRollback] plainDriver))
  /\ runInTransaction (mkDB (SqlDB plainDriver)) (fun _ => Return None)
     = (Return None, Some (Sql.mkTx true [Sql.DriverCommit] plainDriver)).
Proof.
  split.
  - exact (proj1 (runInTransaction_outcomes plainDriver
                    (fun _ => Return (Some "late")) eq_refl)
                 "late" eq_refl).
  - exact (proj1 (proj2 (proj2 (runInTransaction_outcomes plainDriver
                                  (fun _ => Return None) eq_refl)))
                 eq_refl).
Defined.

(** A callback that panics: the caller of [runInTransaction] sees a
    normal return with a nil error, not the panic. *)
Lemma runInTransaction_swallows_panic :
  fst (runInTransaction (mkDB (SqlDB plainDriver)) (fun _ => Panics "boom"))
  = Return None
  /\ fst (runInTransaction (mkDB (SqlDB plainDriver)) (fun _ => Panics "boom"))
     <> Panics "boom".
Proof.
  split; [reflexivity | discriminate].
Qed.

(** ** SELECT statements *)

Lemma getStmt_soft_delete_scope_witness :
  getStmt sampleDialect
    (sampleScope [mkFilter "Age" GreaterThan (VInt 18) false])
    (softEntity [])
  = Ok (mkStmt
          "SELECT * FROM `db`.`User` WHERE `Age` > ? AND `$Deleted` IS NULL;"
          [VInt 18]).
Proof.
  refine (proj1 (getStmt_soft_delete_scope sampleDialect
                   (sampleScope [mkFilter "Age" GreaterThan (VInt 18) false])
                   (softEntity []) ["`Age` > ?"] [] [VInt 18] []
                   eq_refl eq_refl eq_refl _)
                eq_refl eq_refl).
  discriminate.
Defined.

Lemma getStmt_fragment_order_witness :
  exists ws : list string,
    "SELECT * FROM `db`.`User` WHERE `Age` > ? ORDER BY `Name` ASC LIMIT 10 FOR UPDATE;"
    = "SELECT * FROM `db`.`User`" ++ whereText ws ++ " ORDER BY `Name` ASC"
      ++ " LIMIT 10" ++ " FOR UPDATE" ++ ";"
    /\ length ws = 1%nat.
Proof.
  destruct (getStmt_fragment_order (pkg := samplePackage) sampleDialect
              lockedScope plainEntity
              (mkStmt
                 "SELECT * FROM `db`.`User` WHERE `Age` > ? ORDER BY `Name` ASC LIMIT 10 FOR UPDATE;"
                 [VInt 18])
              eq_refl) as (ws & Htext & Hlen & _).
  exists ws. split; [exact Htext | exact Hlen].
Defined.

(** A locked, ordered, limited SELECT: the lock clause comes after ORDER
    BY and LIMIT, so the text is not the one the stated order gives. *)
Lemma getStmt_lock_after_order :
  getStmt sampleDialect lockedScope plainEntity
  = Ok (mkStmt
          "SELECT * FROM `db`.`User` WHERE `Age` > ? ORDER BY `Name` ASC LIMIT 10 FOR UPDATE;"
          [VInt 18])
  /\ composeAsStated sampleDialect lockedScope plainEntity " WHERE `Age` > ?"
     = "SELECT * FROM `db`.`User` WHERE `Age` > ? FOR UPDATE ORDER BY `Name` ASC LIMIT 10;"
  /\ (forall s, getStmt sampleDialect lockedScope plainEntity = Ok s ->
        query s
        <> composeAsStated sampleDialect lockedScope plainEntity
             " WHERE `Age` > ?").
Proof.
  split; [reflexivity | split; [reflexivity |]].
  intros s H. injection H as <-. vm_compute. discriminate.
Qed.

(** ** WHERE clauses *)

Lemma buildWhere_nil_comparison_witness :
  buildWhere sampleDialect (sampleScope [mkFilter "Name" Equal VNil false])
  = Ok (mkStmt " WHERE `Name` IS NULL" [])
  /\ buildWhere sampleDialect
       (sampleScope [mkFilter "__key__" NotEqual VNil false])
     = Ok (mkStmt " WHERE `$Key` IS NOT NULL" []).
Proof.
  split.
  - exact (proj2 (proj1 (buildWhere_nil_comparison (pkg := samplePackage)
                           sampleDialect
                           (sampleScope [mkFilter "Name" Equal VNil false])
                           [] [] (mkFilter "Name" Equal VNil false)
                           [] [] [] [] [] []
                           eq_refl eq_refl eq_refl eq_refl eq_refl eq_refl)
                        eq_refl)).
  - exact (proj2 (proj2 (buildWhere_nil_comparison (pkg := samplePackage)
                           sampleDialect
                           (sampleScope [mkFilter "__key__" NotEqual VNil false])
                           [] [] (mkFilter "__key__" NotEqual VNil false)
                           [] [] [] [] [] []
                           eq_refl eq_refl eq_refl eq_refl eq_refl eq_refl)
                        eq_refl)).
Defined.

Lemma buildWhere_list_operators_witness :
  buildWhere sampleDialect
    (sampleScope [mkFilter "Id" In (VList [VInt 1; VInt 2; VInt 3]) false])
  = Ok (mkStmt " WHERE `Id` IN (?,?,?)" [VInt 1; VInt 2; VInt 3])
  /\ buildWhere sampleDialect
       (sampleScope [mkFilter "Name" AnyLike (VList []) false])
     = Err (emptyValueError AnyLike).
Proof.
  split.
  - refine (proj1 (proj2 (buildWhere_list_operators (pkg := samplePackage)
                            sampleDialect
                            (sampleScope
                               [mkFilter "Id" In
                                  (VList [VInt 1; VInt 2; VInt 3]) false])
                            [] []
                            (mkFilter "Id" In
                               (VList [VInt 1; VInt 2; VInt 3]) false)
                            [VInt 1; VInt 2; VInt 3]
                            eq_refl eq_refl eq_refl)
                         _ [] [] [] [] [] [] eq_refl eq_refl eq_refl)
                  eq_refl).
    discriminate.
  - refine (proj2 (proj2 (proj1 (buildWhere_list_operators
                                   (pkg := samplePackage) sampleDialect
                                   (sampleScope
                                      [mkFilter "Name" AnyLike (VList []) false])
                                   [] []
                                   (mkFilter "Name" AnyLike (VList []) false)
                                   []
                                   eq_refl eq_refl eq_refl)
                                eq_refl _))
                  [] [] eq_refl).
    right. right. reflexivity.
Defined.


(** ** Deleting rows *)

Lemma deleteStmt_soft_delete_witness :
  deleteStmt sampleDialect "2018-06-24 08:30:00" (softEntity twoRows) true
  = Ok (mkStmt "UPDATE `db`.`User` SET `$Deleted` = ? WHERE `$Key` IN (?,?);"
          [VString "2018-06-24 08:30:00"; VString "User,1";
           VString "User,'bob'"])
  /\ deleteStmt sampleDialect "2018-06-24 08:30:00"
       (softEntity [rowOf keyAlice []; rowOf keyNone []]) true
     = Err ("goloquent: entity " ++ GoStr.quoted "User"
            ++ " has incomplete key").
Proof.
  split.
  - exact (proj1 (proj1 (deleteStmt_soft_delete (pkg := samplePackage)
                           sampleDialect "2018-06-24 08:30:00"
                           (softEntity twoRows) [keyAlice; keyBob]
                           eq_refl eq_refl)
                        eq_refl)).
  - exact (proj2 (deleteStmt_soft_delete (pkg := samplePackage)
                    sampleDialect "2018-06-24 08:30:00"
                    (softEntity [rowOf keyAlice []; rowOf keyNone []])
                    [keyAlice; keyNone] eq_refl eq_refl)
                 eq_refl).
Defined.

(** ** Bulk update *)


(** ** Rendering, quoting, ancestors *)

Lemma String_interpolates_witness :
  Render.String_ (Some sampleRender)
    (mkStmt "SELECT * FROM t WHERE a = ? AND b = ?" [VInt 1; VString "x"])
  = Ok "SELECT * FROM t WHERE a = 1 AND b = 'x'".
Proof.
  exact (String_interpolates sampleRender
           (mkStmt "SELECT * FROM t WHERE a = ? AND b = ?"
                   [VInt 1; VString "x"])
           eq_refl).
Defined.


Lemma quoteIfNecessary_cases_witness :
  quoteIfNecessary sampleDialect "Name" = "`Name`"
  /\ quoteIfNecessary sampleDialect "COUNT(*)" = "COUNT(*)".
Proof.
  split.
  - refine (proj1 (quoteIfNecessary_cases sampleDialect "Name") _ eq_refl).
    discriminate.
  - exact (proj2 (quoteIfNecessary_cases sampleDialect "COUNT(*)") eq_refl).
Defined.

Lemma buildWhere_placeholders_match_args_witness :
  Render.placeholders
    " WHERE `Id` IN (?,?,?) AND `Name` IS NULL AND (`$Key` LIKE ? OR `$Key` LIKE ?)"
  = 5.
Proof.
  refine (buildWhere_placeholders_match_args (pkg := samplePackage)
            sampleDialect
            (ancestorScope
               [mkFilter "Id" In (VList [VInt 1; VInt 2; VInt 3]) false;
                mkFilter "Name" Equal VNil false]
               [sampleGroup])
            (mkStmt
               " WHERE `Id` IN (?,?,?) AND `Name` IS NULL AND (`$Key` LIKE ? OR `$Key` LIKE ?)"
               [VInt 1; VInt 2; VInt 3;
                VString "%User,1/%"; VString "%User,'bob'/%"])
            _ _ eq_refl eq_refl).
  - intros f w a H. discriminate.
  - intros f [<- | [<- | []]]; reflexivity.
Defined.

Lemma buildWhere_ancestors_witness :
  buildWhere sampleDialect (ancestorScope [] [sampleAncestor; sampleGroup])
  = Ok (mkStmt
          " WHERE `$Key` LIKE ? AND (`$Key` LIKE ? OR `$Key` LIKE ?)"
          [VString "%User,1/%"; VString "%User,1/%";
           VString "%User,'bob'/%"]).
Proof.
  refine (buildWhere_ancestors (pkg := samplePackage) sampleDialect
            (ancestorScope [] [sampleAncestor; sampleGroup]) [] []
            eq_refl _).
  intros aa [<- | [<- | []]].
  - exists [Some keyAlice]. split; [discriminate | reflexivity].
  - exists [Some keyAlice; Some keyBob]. split; [discriminate | reflexivity].
Defined.

Lemma buildWhere_empty_ancestor_panics_witness :
  buildWhere sampleDialect
    (ancestorScope [] [sampleAncestor; mkGroup true []])
  = Panic "bytes.Buffer: truncation out of range".
Proof.
  exact (buildWhere_empty_ancestor_panics (pkg := samplePackage)
           sampleDialect
           (ancestorScope [] [sampleAncestor; mkGroup true []])
           [sampleAncestor] [] (mkGroup true []) [] ["`$Key` LIKE ?"] []
           [VString "%User,1/%"]
           eq_refl eq_refl eq_refl eq_refl).
Defined.

(** ** Deleting and inserting rows *)

Lemma deleteStmt_hard_delete_witness :
  deleteStmt sampleDialect "2018-06-24 08:30:00" (softEntity twoRows) false
  = Ok (mkStmt "DELETE FROM `db`.`User` WHERE `$Key` IN (?,?);"
          [VString "User,1"; VString "User,'bob'"]).
Proof.
  exact (deleteStmt_hard_delete (pkg := samplePackage) sampleDialect
           "2018-06-24 08:30:00" (softEntity twoRows) [keyAlice; keyBob]
           false (or_introl eq_refl) eq_refl eq_refl).
Defined.

Lemma deleteStmt_first_bad_row_witness :
  deleteStmt sampleDialect "2018-06-24 08:30:00"
    (softEntity [rowOf keyAlice []; mkRow (VKey None) (fun _ => Ok None)])
    true
  = Panic nilDereference.
Proof.
  exact (proj1 (deleteStmt_first_bad_row (pkg := samplePackage)
                  sampleDialect "2018-06-24 08:30:00"
                  (softEntity
                     [rowOf keyAlice [];
                      mkRow (VKey None) (fun _ => Ok None)])
                  [rowOf keyAlice []] []
                  (mkRow (VKey None) (fun _ => Ok None))
                  [keyAlice] true eq_refl eq_refl eq_refl)
               eq_refl).
Defined.

Lemma putStmt_rows_witness :
  putStmt sampleDialect (softEntity twoRows)
  = Ok (Some (mkStmt
          "INSERT INTO `db`.`User` (`$Key`,`Name`,`Age`,`Email`) VALUES (?,?,?,?),(?,?,?,?);"
          [VString "User,1"; VString "alice"; VInt 31; VString "a@x";
           VString "User,'bob'"; VString "bob"; VInt 47; VString "b@x"])).
Proof.
  refine (putStmt_rows sampleDialect (softEntity twoRows)
            [[VString "User,1"; VString "alice"; VInt 31; VString "a@x"];
             [VString "User,'bob'"; VString "bob"; VInt 47; VString "b@x"]]
            _ _).
  - discriminate.
  - repeat constructor.
Defined.

Lemma putStmt_swallows_SaveStruct_error_witness :
  putStmt sampleDialect (softEntity (List.app twoRows [brokenRow])) = Ok None
  /\ exists msg,
       upsert (pkg := samplePackage) sampleDialect (omitScope [])
              (softEntity (List.app twoRows [brokenRow]))
       = Panic msg.
Proof.
  refine (putStmt_swallows_SaveStruct_error (pkg := samplePackage)
            sampleDialect (omitScope [])
            (softEntity (List.app twoRows [brokenRow]))
            twoRows [] brokenRow eq_refl _ eq_refl).
  repeat constructor; eexists; reflexivity.
Defined.

(** ** Upsert *)

Lemma conflictColumns_at_most_one_omission_witness :
  conflictColumns (omitScope ["Age"]) (softEntity twoRows)
  = Ok ["$Key"; "Name"; "Email"].
Proof.
  refine (proj2 (conflictColumns_at_most_one_omission (pkg := samplePackage)
                   ["Age"] (omitScope ["Age"]) (softEntity twoRows) eq_refl)
                ["$Key"; "Name"] "Age" ["Email"] eq_refl eq_refl _).
  intros x [<- | [<- | [<- | []]]]; reflexivity.
Defined.

Lemma conflictColumns_last_and_other_panics_witness :
  conflictColumns (omitScope ["Name"; "Email"]) (softEntity twoRows)
  = Panic "runtime error: slice bounds out of range".
Proof.
  refine (proj1 (conflictColumns_last_and_other_panics
                   (pkg := samplePackage) ["Name"; "Email"] 4 "Email"
                   sampleDialect (omitScope ["Name"; "Email"])
                   (softEntity twoRows) ["$Key"; "Name"; "Age"]
                   eq_refl eq_refl eq_refl eq_refl _)).
  exists "Name". split; [right; left; reflexivity | reflexivity].
Defined.

Lemma upsert_appends_conflict_clause_witness :
  exists body,
    "INSERT INTO `db`.`User` (`$Key`,`Name`,`Age`,`Email`) VALUES (?,?,?,?),(?,?,?,?);"
    = body ++ ";"
    /\ upsert (pkg := samplePackage) sampleDialect (omitScope ["Age"])
              (softEntity twoRows)
       = Ok (Some (mkStmt
               (body ++ " "
                ++ "ON DUPLICATE KEY UPDATE `$Key`=VALUES(`$Key`),`Name`=VALUES(`Name`),`Email`=VALUES(`Email`)"
                ++ ";")
               [VString "User,1"; VString "alice"; VInt 31; VString "a@x";
                VString "User,'bob'"; VString "bob"; VInt 47; VString "b@x"])).
Proof.
  refine (upsert_appends_conflict_clause (pkg := samplePackage) sampleDialect
            (omitScope ["Age"]) (softEntity twoRows)
            (mkStmt
               "INSERT INTO `db`.`User` (`$Key`,`Name`,`Age`,`Email`) VALUES (?,?,?,?),(?,?,?,?);"
               [VString "User,1"; VString "alice"; VInt 31; VString "a@x";
                VString "User,'bob'"; VString "bob"; VInt 47; VString "b@x"])
            ["$Key"; "Name"; "Email"]
            "ON DUPLICATE KEY UPDATE `$Key`=VALUES(`$Key`),`Name`=VALUES(`Name`),`Email`=VALUES(`Email`)"
            _ eq_refl eq_refl _ eq_refl); discriminate.
Defined.

(** ** Truncating, transactions *)

Lemma truncate_stops_at_first_error_witness :
  truncate sampleDialect (list string) sampleExec
    ["User"; "Locked"; "Order"] []
  = (Some "table is locked",
     ["TRUNCATE TABLE `db`.`User`;"; "TRUNCATE TABLE `db`.`Locked`;"]).
Proof.
  exact (truncate_stops_at_first_error sampleDialect (list string) sampleExec
           ["User"] ["Order"] "Locked" "table is locked" []
           ["TRUNCATE TABLE `db`.`User`;"]
           ["TRUNCATE TABLE `db`.`User`;"; "TRUNCATE TABLE `db`.`Locked`;"]
           eq_refl eq_refl).
Defined.

Lemma DB_Truncate_validates_first_witness :
  exists err,
    DB_Truncate sampleDialect (list string) sampleExec (fun s => s)
      [ModelString "User"; ModelOther] []
    = Ok (Some err, []).
Proof.
  refine (DB_Truncate_validates_first sampleDialect (list string) sampleExec
            (fun s => s) [ModelString "User"; ModelOther] [] _ _).
  - exists ModelOther. split; [right; left; reflexivity | exact I].
  - intros m [<- | [<- | []]]; discriminate.
Defined.

Lemma runInTransaction_finishes_witness :
  Sql.done (Sql.mkTx true [Sql.DriverRollback] plainDriver) = true
  /\ (Sql.calls (Sql.mkTx true [Sql.DriverRollback] plainDriver)
      = [Sql.DriverCommit]
      \/ Sql.calls (Sql.mkTx true [Sql.DriverRollback] plainDriver)
         = [Sql.DriverRollback]).
Proof.
  exact (proj1 (runInTransaction_finishes (mkDB (SqlDB plainDriver))
                  (fun _ => Panics "boom"))
               (Sql.mkTx true [Sql.DriverRollback] plainDriver) eq_refl).
Defined.

(** ** Updates *)

Lemma updateWithMap_rejects_key_witness :
  isOk (updateWithMap (pkg := samplePackage) sampleDialect (fun v => Ok v)
          [(VString "Name", VString "x"); (VString "__key__", VInt 3)])
  = false.
Proof.
  refine (updateWithMap_rejects_key (pkg := samplePackage) sampleDialect
            (fun v => Ok v)
            [(VString "Name", VString "x"); (VString "__key__", VInt 3)] _).
  right. left. reflexivity.
Defined.

Lemma updateWithMap_assignments_witness :
  exists keys : list string,
    [VString "Name"; VString "Age"] = map VString keys
    /\ "`Name` = ?,`Age` = ?"
       = GoStr.Join (map (fun k => Quote sampleDialect k ++ " = ?") keys) ",".
Proof.
  destruct (updateWithMap_assignments (pkg := samplePackage) sampleDialect
              (fun v => Ok v)
              [(VString "Name", VString "x"); (VString "Age", VInt 3)]
              (mkStmt "`Name` = ?,`Age` = ?" [VString "x"; VInt 3])
              eq_refl) as (keys & Hk & _ & Ht & _).
  exists keys. split; [exact Hk | exact Ht].
Defined.

Lemma saveMutation_statement_witness :
  exists k : Key,
    Incomplete k = false
    /\ [VString "alice"; VInt 31; VString "User,1"]
       = List.app [VString "alice"; VInt 31] [VString (sampleKeyString (Some k))].
Proof.
  destruct (saveMutation_statement (pkg := samplePackage) sampleDialect
              sampleKeyString (omitScope []) "User" "User"
              [sampleSaved keyAlice]
              (mkStmt
                 "UPDATE `db`.`User` SET `Name` = ?,`Age` = ? WHERE `$Key` = ?;"
                 [VString "alice"; VInt 31; VString "User,1"])
              eq_refl)
    as (f & rest & props & k & vals & Hm & Hp & Hk & Hc & Hall & Ha & Hq).
  exists k. split; [exact Hc |].
  injection Hm as <- <-. injection Hp as <-.
  injection Hk as <-. reflexivity.
Defined.

Lemma interfaceToKeyString_idempotent_witness :
  interfaceToKeyString (pkg := samplePackage)
    (VList [VString "User,1"; VString "User,'bob'"])
  = Ok (VList [VString "User,1"; VString "User,'bob'"]).
Proof.
  exact (interfaceToKeyString_idempotent (pkg := samplePackage)
           (VKeys [Some keyAlice; Some keyBob])
           (VList [VString "User,1"; VString "User,'bob'"]) eq_refl).
Defined.

Lemma updateWithStruct_nothing_to_set_panics_witness :
  updateWithStruct (pkg := samplePackage) sampleDialect (projectScope [])
    zeroStruct
  = Panic "bytes.Buffer: truncation out of range".
Proof.
  refine (updateWithStruct_nothing_to_set_panics (pkg := samplePackage)
            sampleDialect (projectScope []) zeroStruct _ eq_refl eq_refl _).
  intros p [<- | [<- | [<- | []]]]; reflexivity.
Defined.

(** ** Deleting rows that hold a nil key *)

(** C7, on the code.  [concatKeys] asks a key whether it is incomplete
    without first asking whether it is nil, the test [saveMutation] makes
    on its key.  So a soft delete of the rows [nil key, incomplete key]
    panics on the nil dereference instead of failing with the
    incomplete-key error, and a soft delete of the rows [complete key,
    nil key] panics too: it yields neither the UPDATE nor an error. *)
Theorem deleteStmt_nil_key_panics :
  Incomplete keyNone = true
  /\ deleteStmt sampleDialect "2018-06-24 08:30:00"
       (softEntity [nilKeyRow; rowOf keyNone []]) true
     = Panic nilDereference
  /\ deleteStmt sampleDialect "2018-06-24 08:30:00"
       (softEntity [nilKeyRow; rowOf keyNone []]) true
     <> Err ("goloquent: entity " ++ GoStr.quoted "User"
             ++ " has incomplete key")
  /\ deleteStmt sampleDialect "2018-06-24 08:30:00"
       (softEntity [rowOf keyAlice []; nilKeyRow]) true
     = Panic nilDereference.
Proof.
  split; [reflexivity |]. split; [reflexivity |].
  split; [discriminate | reflexivity].
Qed.
